(** * AT45BlockDevice: byte ranges over a page-oriented flash

    A shallow embedding of [AT45BlockDevice.h]: the block device that turns
    reads, programs and erases of arbitrary byte ranges into whole-page
    accesses of an AT45 flash chip, through one page buffer that doubles as a
    single-slot cache ([pagebuffer], tagged by [last_page]).

    Integers are [Z] with the wrap-around of their C type written out, byte
    buffers are [list byte], the [while] and [for] loops take fuel. *)

From Stdlib Require Import ZArith List Lia Bool Sorted.
From Stdlib Require Import Strings.Byte.
Import ListNotations.
Local Open Scope Z_scope.

(** ** Machine integers *)

(** [uint32_t] and [uint64_t] ([bd_addr_t] and [bd_size_t] are [uint64_t]). *)
Definition uint32 (x : Z) : Z := x mod 2 ^ 32.
Definition uint64 (x : Z) : Z := x mod 2 ^ 64.

(** [size_t] is 32 bits wide on the Cortex-M targets this driver is built
    for.  For requests inside a device smaller than 4 GiB the conversion
    changes nothing, so a 64-bit [size_t] gives the same results there. *)
Definition size_t (x : Z) : Z := uint32 x.

(** ** Error codes *)

(** Modelled from the spec: [BD_ERROR_OK] comes from [BlockDevice.h], which
    is not part of the sources; the page primitives answer 0 for success and
    the operations return that same 0 as [Ok]. *)
Definition BD_ERROR_OK : Z := 0.
Definition BD_ERROR_NO_MEMORY : Z := -4002.
Definition BD_ERROR_NOT_INITIALIZED : Z := -4003.

(** The value [last_page] holds while no page is cached. *)
Definition NO_PAGE : Z := 0xffffffff.

(** ** The chip driver *)

Module AT45.

(** One access to the chip, as a call-counting stand-in records it. *)
Inductive access : Type :=
| ReadPage (page : Z)
| WritePage (page : Z) (data : list byte).

Definition page_of (a : access) : Z :=
  match a with ReadPage p => p | WritePage p _ => p end.

Definition is_read (a : access) : bool :=
  match a with ReadPage _ => true | WritePage _ _ => false end.

Definition is_write (a : access) : bool := negb (is_read a).

(** Modelled from the spec: [AT45.h] is not part of the sources.  The chip
    is an array of pages, read and written one whole page at a time; an
    access answers 0 or an error code, and an access that answers an error
    has no effect (partial reads and writes are not a recognised outcome).
    [faults] lists the answers of the accesses to come (0 once the list is
    used up) and [journal] the accesses served so far with their answers,
    oldest first. *)
Record t : Type := mk {
  pagesize : Z;
  pages : Z;
  flash : Z -> list byte;
  faults : list Z;
  journal : list (access * Z)
}.

Definition answer (c : t) : Z * list Z :=
  match faults c with
  | [] => (0, [])
  | r :: rest => (r, rest)
  end.

(** [at45.read_page(pagebuffer, page)]: the answer, the buffer as the call
    leaves it, and the chip. *)
Definition read_page (c : t) (data : list byte) (page : Z) : Z * list byte * t :=
  let (r, rest) := answer c in
  (r,
   if r =? 0 then flash c page else data,
   mk (pagesize c) (pages c) (flash c) rest (journal c ++ [(ReadPage page, r)])).

(** [at45.write_page(pagebuffer, page)]: the answer and the chip. *)
Definition write_page (c : t) (data : list byte) (page : Z) : Z * t :=
  let (r, rest) := answer c in
  (r,
   mk (pagesize c) (pages c)
      (if r =? 0 then fun p => if p =? page then data else flash c p else flash c)
      rest (journal c ++ [(WritePage page data, r)])).

End AT45.

(** ** The block device *)

(** [pagebuffer] is a pointer: [None] is the null pointer, [Some b] points to
    a buffer holding [b]. *)
Record AT45BlockDevice : Type := mkDevice {
  at45 : AT45.t;
  pagesize : Z;
  totalsize : Z;
  pagebuffer : option (list byte);
  last_page : Z
}.

(** The constructor (lines 23-27) sets [pagesize], [totalsize] and
    [last_page].  It has no initialiser for [pagebuffer]: the member keeps
    what the storage of the object held, [stale] (null for an object in
    zero-initialised static storage). *)
Definition AT45BlockDevice_new (chip : AT45.t) (stale : option (list byte))
  : AT45BlockDevice :=
  let pagesize := uint64 (AT45.pagesize chip) in
  {| at45 := chip;
     pagesize := pagesize;
     totalsize := uint64 (pagesize * AT45.pages chip);
     pagebuffer := stale;
     last_page := 0xffffffff |}.

(** [calloc(pagesize, 1)]: [calloc_ok] tells whether the allocation succeeds. *)
Definition calloc (calloc_ok : bool) (n : Z) : option (list byte) :=
  if calloc_ok then Some (repeat x00 (Z.to_nat n)) else None.

(** [init] (lines 33-40).  It does not touch [last_page]. *)
Definition init (calloc_ok : bool) (d : AT45BlockDevice) : Z * AT45BlockDevice :=
  let d' := {| at45 := at45 d; pagesize := pagesize d; totalsize := totalsize d;
               pagebuffer := calloc calloc_ok (pagesize d);
               last_page := last_page d |} in
  match pagebuffer d' with
  | None => (BD_ERROR_NO_MEMORY, d')
  | Some _ => (BD_ERROR_OK, d')
  end.

(** [memcpy(dest + at, src, n)] *)
Definition memcpy (dest : list byte) (at_ : Z) (src : list byte) (n : Z) : list byte :=
  firstn (Z.to_nat at_) dest ++ firstn (Z.to_nat n) src ++ skipn (Z.to_nat (at_ + n)) dest.

(** [memset(dest, c, n)] *)
Definition memset (dest : list byte) (c : byte) (n : Z) : list byte :=
  repeat c (Z.to_nat n) ++ skipn (Z.to_nat n) dest.

(** The [while (bytes_left > 0)] loop of [program] (lines 59-101).  [buffer]
    is the source pointer: advancing it drops what was consumed.
    [write_back] is the rest of the loop body once the page is in the buffer
    (lines 83-100), reached after the load or without one.  The result is the
    return code with the chip, the page buffer and [last_page] as the loop
    leaves them; [None] when the fuel runs out. *)
Fixpoint program_loop (fuel : nat) (pagesize : Z) (at45 : AT45.t)
    (pagebuffer : list byte) (last_page : Z) (buffer : list byte)
    (addr bytes_left : Z) : option (Z * AT45.t * list byte * Z) :=
  if bytes_left >? 0 then
    match fuel with
    | O => None
    | S fuel =>
      let page := uint32 (addr / pagesize) in
      let offset := uint32 (addr mod pagesize) in
      let length := uint32 (pagesize - offset) in
      let length := if length >? bytes_left then bytes_left else length in
      let write_back (pagebuffer : list byte) (at45 : AT45.t) :=
        let pagebuffer := memcpy pagebuffer offset buffer length in
        let (r, at45) := AT45.write_page at45 pagebuffer page in
        if negb (r =? 0) then Some (r, at45, pagebuffer, last_page)
        else program_loop fuel pagesize at45 pagebuffer page
               (skipn (Z.to_nat length) buffer)
               (uint64 (addr + length)) (size_t (bytes_left - length)) in
      if negb (last_page =? page) then
        let '(r, pagebuffer, at45) := AT45.read_page at45 pagebuffer page in
        if negb (r =? 0) then Some (r, at45, pagebuffer, last_page)
        else write_back pagebuffer at45
      else write_back pagebuffer at45
    end
  else Some (BD_ERROR_OK, at45, pagebuffer, last_page).

(** [program] (lines 48-104). *)
Definition program (fuel : nat) (d : AT45BlockDevice) (a_buffer : list byte)
    (addr size : Z) : option (Z * AT45BlockDevice) :=
  match pagebuffer d with
  | None => Some (BD_ERROR_NOT_INITIALIZED, d)
  | Some pb =>
    match program_loop fuel (pagesize d) (at45 d) pb (last_page d)
            a_buffer addr (size_t size) with
    | None => None
    | Some (r, chip, pb, last) =>
      Some (r, {| at45 := chip; pagesize := pagesize d; totalsize := totalsize d;
                  pagebuffer := Some pb; last_page := last |})
    end
  end.

(** The [while (bytes_left > 0)] loop of [read] (lines 113-136).  The
    destination pointer is the caller's array [dest] with a cursor [pos];
    [copy_out] is the rest of the loop body once the page is in the buffer
    (lines 128-135). *)
Fixpoint read_loop (fuel : nat) (pagesize : Z) (at45 : AT45.t)
    (pagebuffer : list byte) (last_page : Z) (dest : list byte) (pos : Z)
    (addr bytes_left : Z) : option (Z * AT45.t * list byte * Z * list byte) :=
  if bytes_left >? 0 then
    match fuel with
    | O => None
    | S fuel =>
      let page := uint32 (addr / pagesize) in
      let offset := uint32 (addr mod pagesize) in
      let length := uint32 (pagesize - offset) in
      let length := if length >? bytes_left then bytes_left else length in
      let copy_out (pagebuffer : list byte) (at45 : AT45.t) :=
        let dest := memcpy dest pos (skipn (Z.to_nat offset) pagebuffer) length in
        read_loop fuel pagesize at45 pagebuffer page dest (pos + length)
          (uint64 (addr + length)) (size_t (bytes_left - length)) in
      if negb (last_page =? page) then
        let '(r, pagebuffer, at45) := AT45.read_page at45 pagebuffer page in
        if negb (r =? 0) then Some (r, at45, pagebuffer, last_page, dest)
        else copy_out pagebuffer at45
      else copy_out pagebuffer at45
    end
  else Some (BD_ERROR_OK, at45, pagebuffer, last_page, dest).

(** [read] (lines 106-139); the result carries the caller's buffer. *)
Definition read (fuel : nat) (d : AT45BlockDevice) (a_buffer : list byte)
    (addr size : Z) : option (Z * AT45BlockDevice * list byte) :=
  match pagebuffer d with
  | None => Some (BD_ERROR_NOT_INITIALIZED, d, a_buffer)
  | Some pb =>
    match read_loop fuel (pagesize d) (at45 d) pb (last_page d)
            a_buffer 0 addr (size_t size) with
    | None => None
    | Some (r, chip, pb, last, dest) =>
      Some (r, {| at45 := chip; pagesize := pagesize d; totalsize := totalsize d;
                  pagebuffer := Some pb; last_page := last |}, dest)
    end
  end.

(** The [for (size_t ix = start_page; ix <= end_page; ix++)] loop of [erase]
    (lines 151-154): the return code of the failing write, or 0 when the loop
    runs to its end. *)
Fixpoint erase_loop (fuel : nat) (at45 : AT45.t) (pagebuffer : list byte)
    (ix end_page : Z) : option (Z * AT45.t) :=
  if ix <=? end_page then
    match fuel with
    | O => None
    | S fuel =>
      let (r, at45) := AT45.write_page at45 pagebuffer ix in
      if negb (r =? 0) then Some (r, at45)
      else erase_loop fuel at45 pagebuffer (size_t (ix + 1)) end_page
    end
  else Some (0, at45).

(** [erase] (lines 141-161).  The page buffer is filled with [0xFF] before
    the loop and stays so on every path; [last_page] is reset only after a
    loop without error, and only when it names one of the pages written. *)
Definition erase (fuel : nat) (d : AT45BlockDevice) (addr size : Z)
  : option (Z * AT45BlockDevice) :=
  match pagebuffer d with
  | None => Some (BD_ERROR_NOT_INITIALIZED, d)
  | Some pb =>
    let start_page := uint32 (addr / pagesize d) in
    let end_page := uint32 (uint64 (addr + size) / pagesize d) in
    let pb := memset pb xff (pagesize d) in
    match erase_loop fuel (at45 d) pb (size_t start_page) end_page with
    | None => None
    | Some (r, chip) =>
      if negb (r =? 0) then
        Some (r, {| at45 := chip; pagesize := pagesize d; totalsize := totalsize d;
                    pagebuffer := Some pb; last_page := last_page d |})
      else
        Some (BD_ERROR_OK,
              {| at45 := chip; pagesize := pagesize d; totalsize := totalsize d;
                 pagebuffer := Some pb;
                 last_page := if (last_page d >=? start_page) && (last_page d <=? end_page)
                              then 0xffffffff else last_page d |})
    end
  end.

(** ** Requests *)

(** The three range operations as values, to speak of sequences of calls. *)
Inductive request : Type :=
| Read (dest : list byte) (addr size : Z)
| Program (src : list byte) (addr size : Z)
| Erase (addr size : Z).

(** The outcome of a call: return code, device, and the destination buffer of
    a read (empty for the other two). *)
Definition call (fuel : nat) (d : AT45BlockDevice) (q : request)
  : option (Z * AT45BlockDevice * list byte) :=
  match q with
  | Read dest addr size => read fuel d dest addr size
  | Program src addr size =>
    match program fuel d src addr size with
    | Some (r, d') => Some (r, d', [])
    | None => None
    end
  | Erase addr size =>
    match erase fuel d addr size with
    | Some (r, d') => Some (r, d', [])
    | None => None
    end
  end.

(** ** A small chip to run examples on: 4 pages of 4 bytes *)

Definition demo_flash (p : Z) : list byte :=
  if p =? 0 then [x10; x11; x12; x13]
  else if p =? 1 then [x01; x02; x03; x04]
  else if p =? 2 then [x20; x21; x22; x23]
  else [x30; x31; x32; x33].

Definition demo_chip (faults : list Z) : AT45.t :=
  AT45.mk 4 4 demo_flash faults [].

Definition demo_device (faults : list Z) : AT45BlockDevice :=
  snd (init true (AT45BlockDevice_new (demo_chip faults) None)).

(** The same chip behind a device on which [init] has not run, built over
    storage that held a pointer to four zero bytes. *)
Definition stale_device : AT45BlockDevice :=
  AT45BlockDevice_new (demo_chip []) (Some [x00; x00; x00; x00]).

(** * Properties *)

(** ** Conditions on a call *)

(** The page size fits the 32-bit variables of the loops, and every page
    index of the device is below the value that stands for "no page". *)
Definition geometry_ok (d : AT45BlockDevice) : Prop :=
  0 < pagesize d < 2 ^ 32 /\ totalsize d < NO_PAGE.

(** [init] has succeeded: the page buffer is there and one page long. *)
Definition initialized (d : AT45BlockDevice) : Prop :=
  exists pb, pagebuffer d = Some pb /\ Z.of_nat (length pb) = pagesize d.

(** Every page of the chip is [pagesize] bytes long. *)
Definition pages_ok (d : AT45BlockDevice) : Prop :=
  forall p, Z.of_nat (length (AT45.flash (at45 d) p)) = pagesize d.

Definition ready (d : AT45BlockDevice) : Prop :=
  geometry_ok d /\ initialized d /\ pages_ok d.

Definition in_bounds (d : AT45BlockDevice) (addr size : Z) : Prop :=
  0 <= addr /\ 0 <= size /\ addr + size <= totalsize d.

(** No access to come answers an error. *)
Definition fault_free (c : AT45.t) : Prop :=
  Forall (fun r => r = 0) (AT45.faults c).

(** The accesses a call adds to the journal. *)
Definition issued (before after : AT45.t) (new : list (AT45.access * Z)) : Prop :=
  AT45.journal after = AT45.journal before ++ new.

(** A run of accesses answered 0, ended or not by one that answered an error;
    [ret] is that error, or 0 when there is none. *)
Fixpoint halts_with (new : list (AT45.access * Z)) (ret : Z) : Prop :=
  match new with
  | [] => ret = 0
  | (_, r) :: rest => if r =? 0 then halts_with rest ret else rest = [] /\ ret = r
  end.

(** The logical byte at address [a], as the chip holds it. *)
Definition byte_at (d : AT45BlockDevice) (a : Z) : byte :=
  nth (Z.to_nat (a mod pagesize d)) (AT45.flash (at45 d) (a / pagesize d)) x00.

(** The cache tells the truth: when [last_page] names a page, the page buffer
    holds what the chip holds for that page. *)
Definition cache_valid (d : AT45BlockDevice) : Prop :=
  last_page d <> NO_PAGE ->
  pagebuffer d = Some (AT45.flash (at45 d) (last_page d)).

(** The pages [lo], [lo+1], ..., [hi]. *)
Definition page_range (lo hi : Z) : list Z :=
  map (fun i => lo + Z.of_nat i) (seq 0 (Z.to_nat (hi - lo + 1))).

(** The pages of the read accesses and of the write accesses of a journal. *)
Definition loads (new : list (AT45.access * Z)) : list Z :=
  map AT45.page_of (filter AT45.is_read (map fst new)).

Definition stores (new : list (AT45.access * Z)) : list Z :=
  map AT45.page_of (filter AT45.is_write (map fst new)).

(** ** Ranges, pages and requests *)

(** [l1] is an initial segment of [l2]. *)
Definition initial_segment {A : Type} (l1 l2 : list A) : Prop :=
  exists rest, l2 = l1 ++ rest.

(** The pages a byte range lies on, in ascending order. *)
Definition pages_spanned (ps addr size : Z) : list Z :=
  if 0 <? size then page_range (addr / ps) ((addr + size - 1) / ps) else [].

(** The pages to load when visiting [visit] with page [last] in the cache:
    all of them, but the first when it is the cached one. *)
Definition pages_loaded (last : Z) (visit : list Z) : list Z :=
  match visit with
  | [] => []
  | p :: rest => if last =? p then rest else p :: rest
  end.

(** The start address and the size of a request. *)
Definition addr_of (q : request) : Z :=
  match q with Read _ a _ | Program _ a _ | Erase a _ => a end.

Definition size_of (q : request) : Z :=
  match q with Read _ _ s | Program _ _ s | Erase _ s => s end.

(** A read or a program, the two calls that go through the cache. *)
Definition transfer (q : request) : bool :=
  match q with Erase _ _ => false | _ => true end.

(** Fuel that is enough for a call: a turn of the page loops moves at least
    one byte, a turn of the erase loop handles one page. *)
Definition turns (d : AT45BlockDevice) (q : request) : nat :=
  match q with
  | Erase addr size => Z.to_nat ((addr + size) / pagesize d - addr / pagesize d + 1)
  | _ => Z.to_nat (size_t (size_of q))
  end.

(** The pages a transfer stores: those it visits for a program, none for a
    read. *)
Definition pages_stored (q : request) (visit : list Z) : list Z :=
  match q with Program _ _ _ => visit | _ => [] end.

(** [q] is a read or a program of at least one byte, inside the device, that
    starts on page [p]. *)
Definition starts_on (d : AT45BlockDevice) (q : request) (p : Z) : Prop :=
  transfer q = true /\ 0 < size_of q /\ in_bounds d (addr_of q) (size_of q) /\
  addr_of q / pagesize d = p.

(** The pages the range of a request of at least one byte lies on. *)
Definition visited (d : AT45BlockDevice) (q : request) : list Z :=
  page_range (addr_of q / pagesize d) ((addr_of q + size_of q - 1) / pagesize d).

(** [q] starts on page [p] and ends on it. *)
Definition within_page (d : AT45BlockDevice) (q : request) (p : Z) : Prop :=
  starts_on d q p /\ (addr_of q + size_of q - 1) / pagesize d = p.

(** ** The geometry accessors (lines 163-177) *)

Definition get_read_size (d : AT45BlockDevice) : Z := pagesize d.

Definition get_program_size (d : AT45BlockDevice) : Z := pagesize d.

Definition get_erase_size (d : AT45BlockDevice) : Z := pagesize d.

Definition size (d : AT45BlockDevice) : Z := totalsize d.

(** ** Sequences of calls *)

(** The buffer a request hands over: the destination of a read, the source
    of a program. *)
Definition buffer_of (q : request) : list byte :=
  match q with Read b _ _ | Program b _ _ => b | Erase _ _ => [] end.

(** A read or a program inside the device whose buffer holds at least
    [size] bytes. *)
Definition fits (d : AT45BlockDevice) (q : request) : Prop :=
  transfer q = true /\ in_bounds d (addr_of q) (size_of q) /\
  size_of q <= Z.of_nat (length (buffer_of q)).

(** One call after the other on the same device: the return codes in order
    and the device at the end. *)
Fixpoint calls (fuel : nat) (d : AT45BlockDevice) (qs : list request)
  : option (list Z * AT45BlockDevice) :=
  match qs with
  | [] => Some ([], d)
  | q :: qs =>
    match call fuel d q with
    | None => None
    | Some (r, d', _) =>
      match calls fuel d' qs with
      | None => None
      | Some (rs, d'') => Some (r :: rs, d'')
      end
    end
  end.

(** The demonstration device with page 1 in its cache and a chip that will
    answer error 7 to its next access. *)
Definition cached_device : AT45BlockDevice :=
  mkDevice (demo_chip [7]) 4 16 (Some [x01; x02; x03; x04]) 1.

(** ** Integers *)

Lemma uint32_small (x : Z) : 0 <= x < 2 ^ 32 -> uint32 x = x.
Proof. intros H. unfold uint32. apply Z.mod_small. exact H. Qed.

Lemma uint64_small (x : Z) : 0 <= x < 2 ^ 64 -> uint64 x = x.
Proof. intros H. unfold uint64. apply Z.mod_small. exact H. Qed.

Lemma size_t_small (x : Z) : 0 <= x < 2 ^ 32 -> size_t x = x.
Proof. apply uint32_small. Qed.

(** What one turn of the page loops computes, for any address: the chunk is
    not empty and stays inside the page and inside what is left. *)
Lemma chunk_any (ps addr bl : Z) :
  0 < ps < 2 ^ 32 -> 0 < bl < 2 ^ 32 ->
  let offset := uint32 (addr mod ps) in
  let length := uint32 (ps - offset) in
  let length := if length >? bl then bl else length in
  offset = addr mod ps /\ 0 < length <= bl /\ offset + length <= ps /\
  size_t (bl - length) = bl - length.
Proof.
  intros Hps Hbl. cbv zeta.
  pose proof (Z.mod_pos_bound addr ps ltac:(lia)) as Hm.
  rewrite (uint32_small (addr mod ps)) by lia.
  rewrite (uint32_small (ps - addr mod ps)) by lia.
  destruct (Z.gtb_spec (ps - addr mod ps) bl);
    (split; [reflexivity | split; [lia | split; [lia | apply size_t_small; lia]]]).
Qed.

(** ** The chip *)

Lemma answer_fault_free (c : AT45.t) :
  fault_free c -> exists rest, AT45.answer c = (0, rest) /\ Forall (fun r => r = 0) rest.
Proof.
  unfold fault_free, AT45.answer. intros H.
  destruct (AT45.faults c) as [|r rest].
  - exists []. split; [reflexivity | constructor].
  - inversion H; subst. exists rest. split; [reflexivity | assumption].
Qed.

Lemma issued_nil (c : AT45.t) : issued c c [].
Proof. unfold issued. now rewrite app_nil_r. Qed.

Lemma issued_cons (c c1 c2 : AT45.t) (e : AT45.access * Z) new :
  AT45.journal c1 = AT45.journal c ++ [e] -> issued c1 c2 new -> issued c c2 (e :: new).
Proof.
  unfold issued. intros H1 H2. rewrite H2, H1, <- app_assoc. reflexivity.
Qed.

Lemma issued_inj (c c' : AT45.t) new1 new2 :
  issued c c' new1 -> issued c c' new2 -> new1 = new2.
Proof.
  unfold issued. intros H1 H2. rewrite H1 in H2. now apply app_inv_head in H2.
Qed.

(** ** One turn of each loop *)

Lemma read_loop_done fuel ps chip pb last dest pos addr bl :
  bl <= 0 ->
  read_loop fuel ps chip pb last dest pos addr bl = Some (0, chip, pb, last, dest).
Proof.
  intros H. destruct fuel; simpl; destruct (Z.gtb_spec bl 0); try lia; reflexivity.
Qed.

Lemma read_loop_step fuel ps chip pb last dest pos addr bl :
  0 < bl ->
  read_loop (S fuel) ps chip pb last dest pos addr bl =
  let page := uint32 (addr / ps) in
  let offset := uint32 (addr mod ps) in
  let length := uint32 (ps - offset) in
  let length := if length >? bl then bl else length in
  if last =? page then
    read_loop fuel ps chip pb page
      (memcpy dest pos (skipn (Z.to_nat offset) pb) length) (pos + length)
      (uint64 (addr + length)) (size_t (bl - length))
  else
    let '(r, pb1, chip1) := AT45.read_page chip pb page in
    if r =? 0 then
      read_loop fuel ps chip1 pb1 page
        (memcpy dest pos (skipn (Z.to_nat offset) pb1) length) (pos + length)
        (uint64 (addr + length)) (size_t (bl - length))
    else Some (r, chip1, pb1, last, dest).
Proof.
  intros H. cbn [read_loop]. destruct (Z.gtb_spec bl 0); [|lia]. cbv zeta.
  destruct (last =? uint32 (addr / ps)); cbn [negb]; [reflexivity|].
  destruct (AT45.read_page chip pb (uint32 (addr / ps))) as [[r pb1] chip1].
  destruct (r =? 0); reflexivity.
Qed.

Lemma program_loop_done fuel ps chip pb last buffer addr bl :
  bl <= 0 ->
  program_loop fuel ps chip pb last buffer addr bl = Some (0, chip, pb, last).
Proof.
  intros H. destruct fuel; simpl; destruct (Z.gtb_spec bl 0); try lia; reflexivity.
Qed.

Lemma program_loop_step fuel ps chip pb last buffer addr bl :
  0 < bl ->
  program_loop (S fuel) ps chip pb last buffer addr bl =
  let page := uint32 (addr / ps) in
  let offset := uint32 (addr mod ps) in
  let length := uint32 (ps - offset) in
  let length := if length >? bl then bl else length in
  let '(r, pb1, chip1) :=
    if last =? page then (0, pb, chip) else AT45.read_page chip pb page in
  if r =? 0 then
    let pb2 := memcpy pb1 offset buffer length in
    let (r, chip2) := AT45.write_page chip1 pb2 page in
    if r =? 0 then
      program_loop fuel ps chip2 pb2 page (skipn (Z.to_nat length) buffer)
        (uint64 (addr + length)) (size_t (bl - length))
    else Some (r, chip2, pb2, last)
  else Some (r, chip1, pb1, last).
Proof.
  intros H. cbn [program_loop]. destruct (Z.gtb_spec bl 0); [|lia]. cbv zeta.
  destruct (last =? uint32 (addr / ps)); cbn [negb].
  - change (0 =? 0) with true. cbv iota.
    match goal with |- context [AT45.write_page ?c ?b ?p] =>
      destruct (AT45.write_page c b p) as [r chip2] end.
    destruct (r =? 0); reflexivity.
  - destruct (AT45.read_page chip pb (uint32 (addr / ps))) as [[r pb1] chip1].
    destruct (r =? 0); cbn [negb]; [|reflexivity].
    match goal with |- context [AT45.write_page ?c ?b ?p] =>
      destruct (AT45.write_page c b p) as [r' chip2] end.
    destruct (r' =? 0); reflexivity.
Qed.

Lemma erase_loop_done fuel chip pb ix end_page :
  end_page < ix -> erase_loop fuel chip pb ix end_page = Some (0, chip).
Proof.
  intros H. destruct fuel; simpl; destruct (Z.leb_spec ix end_page); try lia; reflexivity.
Qed.

Lemma erase_loop_step fuel chip pb ix end_page :
  ix <= end_page ->
  erase_loop (S fuel) chip pb ix end_page =
  let (r, chip1) := AT45.write_page chip pb ix in
  if r =? 0 then erase_loop fuel chip1 pb (size_t (ix + 1)) end_page
  else Some (r, chip1).
Proof.
  intros H. cbn [erase_loop]. destruct (Z.leb_spec ix end_page); [|lia].
  destruct (AT45.write_page chip pb ix) as [r chip1].
  destruct (r =? 0); reflexivity.
Qed.

Lemma read_page_inv chip pb page r pb1 chip1 :
  AT45.read_page chip pb page = (r, pb1, chip1) ->
  AT45.journal chip1 = AT45.journal chip ++ [(AT45.ReadPage page, r)] /\
  AT45.flash chip1 = AT45.flash chip /\
  (r = 0 -> pb1 = AT45.flash chip page) /\
  (r <> 0 -> pb1 = pb) /\
  (fault_free chip -> r = 0 /\ fault_free chip1).
Proof.
  unfold AT45.read_page. intros H.
  destruct (AT45.answer chip) as [r0 rest] eqn:A.
  injection H as <- <- <-. cbn.
  split; [reflexivity|]. split; [reflexivity|].
  split; [intros ->; reflexivity|].
  split; [intros Hr; destruct (Z.eqb_spec r0 0); [contradiction | reflexivity]|].
  intros F. destruct (answer_fault_free _ F) as (rest' & A' & F').
  split; [congruence|]. unfold fault_free. cbn. congruence.
Qed.

Lemma write_page_inv chip pb page r chip1 :
  AT45.write_page chip pb page = (r, chip1) ->
  AT45.journal chip1 = AT45.journal chip ++ [(AT45.WritePage page pb, r)] /\
  (r = 0 -> AT45.flash chip1 = fun p => if p =? page then pb else AT45.flash chip p) /\
  (r <> 0 -> AT45.flash chip1 = AT45.flash chip) /\
  (fault_free chip -> r = 0 /\ fault_free chip1).
Proof.
  unfold AT45.write_page. intros H.
  destruct (AT45.answer chip) as [r0 rest] eqn:A.
  injection H as <- <-. cbn.
  split; [reflexivity|].
  split; [intros ->; reflexivity|].
  split; [intros Hr; destruct (Z.eqb_spec r0 0); [contradiction | reflexivity]|].
  intros F. destruct (answer_fault_free _ F) as (rest' & A' & F').
  split; [congruence|]. unfold fault_free. cbn. congruence.
Qed.

(** ** The loops return, and stop at the first error *)

Lemma halts_with_cons a r new ret :
  (r = 0 -> halts_with new ret) -> (r <> 0 -> new = [] /\ ret = r) ->
  halts_with ((a, r) :: new) ret.
Proof.
  intros H0 H1. cbn. destruct (Z.eqb_spec r 0); auto.
Qed.

Lemma halts_with_split new ret pre a r post :
  halts_with new ret -> new = pre ++ (a, r) :: post -> r <> 0 ->
  post = [] /\ ret = r.
Proof.
  revert pre. induction new as [|[a0 r0] new IH]; intros pre H E Hr.
  - destruct pre; discriminate.
  - cbn in H. destruct pre as [|e pre]; cbn in E.
    + injection E as -> -> ->. destruct (Z.eqb_spec r 0); [contradiction | exact H].
    + injection E as <- ->. destruct (Z.eqb_spec r0 0).
      * eapply IH; eauto.
      * destruct H as [H _]. destruct pre; discriminate.
Qed.

Lemma read_loop_runs fuel : forall ps chip pb last dest pos addr bl,
  0 < ps < 2 ^ 32 -> 0 <= bl < 2 ^ 32 -> (Z.to_nat bl <= fuel)%nat ->
  exists r chip' pb' last' dest' new,
    read_loop fuel ps chip pb last dest pos addr bl = Some (r, chip', pb', last', dest') /\
    issued chip chip' new /\ halts_with new r /\
    AT45.flash chip' = AT45.flash chip /\
    Forall (fun e => AT45.is_read (fst e) = true) new /\
    (fault_free chip -> r = 0 /\ fault_free chip').
Proof.
  induction fuel as [|fuel IH]; intros ps chip pb last dest pos addr bl Hps Hbl Hfuel.
  - rewrite read_loop_done by lia.
    exists 0, chip, pb, last, dest, []. repeat split; auto using issued_nil.
  - destruct (Z.le_gt_cases bl 0) as [Hz|Hz].
    + rewrite read_loop_done by lia.
      exists 0, chip, pb, last, dest, []. repeat split; auto using issued_nil.
    + rewrite read_loop_step by lia.
      destruct (chunk_any ps addr bl Hps ltac:(lia)) as (_ & Hlen & _ & Hsz).
      cbv zeta in Hlen, Hsz |- *.
      set (page := uint32 (addr / ps)) in *.
      set (offset := uint32 (addr mod ps)) in *.
      set (len := if uint32 (ps - offset) >? bl then bl else uint32 (ps - offset)) in *.
      rewrite Hsz.
      destruct (last =? page).
      * apply IH; lia.
      * destruct (AT45.read_page chip pb page) as [[r pb1] chip1] eqn:R.
        apply read_page_inv in R. destruct R as (J & Fl & _ & _ & Hff).
        destruct (Z.eqb_spec r 0) as [->|Hr].
        -- edestruct (IH ps chip1 pb1 page
                       (memcpy dest pos (skipn (Z.to_nat offset) pb1) len)
                       (pos + len) (uint64 (addr + len)) (bl - len))
             as (r' & chip' & pb' & last' & dest' & new & E & I & Hh & Hf & Hr' & Hff');
             [lia | lia | lia |].
           exists r', chip', pb', last', dest', ((AT45.ReadPage page, 0) :: new).
           split; [exact E|]. split; [eapply issued_cons; eauto|].
           split; [exact Hh|]. split; [congruence|].
           split; [constructor; auto|].
           intros F. apply Hff', Hff, F.
        -- exists r, chip1, pb1, last, dest, [(AT45.ReadPage page, r)].
           split; [reflexivity|]. split; [exact J|].
           split; [apply halts_with_cons; [contradiction | auto]|].
           split; [exact Fl|]. split; [constructor; auto|].
           intros F. destruct (Hff F) as [? _]. contradiction.
Qed.

Lemma program_loop_runs fuel : forall ps chip pb last buffer addr bl,
  0 < ps < 2 ^ 32 -> 0 <= bl < 2 ^ 32 -> (Z.to_nat bl <= fuel)%nat ->
  exists r chip' pb' last' new,
    program_loop fuel ps chip pb last buffer addr bl = Some (r, chip', pb', last') /\
    issued chip chip' new /\ halts_with new r /\
    (fault_free chip -> r = 0 /\ fault_free chip').
Proof.
  induction fuel as [|fuel IH]; intros ps chip pb last buffer addr bl Hps Hbl Hfuel.
  - rewrite program_loop_done by lia.
    exists 0, chip, pb, last, []. repeat split; auto using issued_nil.
  - destruct (Z.le_gt_cases bl 0) as [Hz|Hz].
    + rewrite program_loop_done by lia.
      exists 0, chip, pb, last, []. repeat split; auto using issued_nil.
    + rewrite program_loop_step by lia.
      destruct (chunk_any ps addr bl Hps ltac:(lia)) as (_ & Hlen & _ & Hsz).
      cbv zeta in Hlen, Hsz |- *.
      set (page := uint32 (addr / ps)) in *.
      set (offset := uint32 (addr mod ps)) in *.
      set (len := if uint32 (ps - offset) >? bl then bl else uint32 (ps - offset)) in *.
      rewrite Hsz.
      assert (Hwb : forall chip1 pb1,
        exists r chip' pb' last' new,
          (let (r, chip2) := AT45.write_page chip1 (memcpy pb1 offset buffer len) page in
           if r =? 0 then
             program_loop fuel ps chip2 (memcpy pb1 offset buffer len) page
               (skipn (Z.to_nat len) buffer) (uint64 (addr + len)) (bl - len)
           else Some (r, chip2, memcpy pb1 offset buffer len, last))
          = Some (r, chip', pb', last') /\
          issued chip1 chip' new /\ halts_with new r /\
          (fault_free chip1 -> r = 0 /\ fault_free chip')).
      { intros chip1 pb1.
        destruct (AT45.write_page chip1 (memcpy pb1 offset buffer len) page)
          as [r chip2] eqn:W.
        apply write_page_inv in W. destruct W as (J & _ & _ & Hff).
        destruct (Z.eqb_spec r 0) as [->|Hr].
        - edestruct (IH ps chip2 (memcpy pb1 offset buffer len) page
                       (skipn (Z.to_nat len) buffer) (uint64 (addr + len)) (bl - len))
            as (r' & chip' & pb' & last' & new & E & I & Hh & Hff'); [lia | lia | lia |].
          exists r', chip', pb', last',
            ((AT45.WritePage page (memcpy pb1 offset buffer len), 0) :: new).
          split; [exact E|]. split; [eapply issued_cons; eauto|].
          split; [exact Hh|]. intros F. apply Hff', Hff, F.
        - exists r, chip2, (memcpy pb1 offset buffer len), last,
            [(AT45.WritePage page (memcpy pb1 offset buffer len), r)].
          split; [reflexivity|]. split; [exact J|].
          split; [apply halts_with_cons; [contradiction | auto]|].
          intros F. destruct (Hff F) as [? _]. contradiction. }
      destruct (last =? page).
      * change (0 =? 0) with true. cbv iota. apply Hwb.
      * destruct (AT45.read_page chip pb page) as [[r pb1] chip1] eqn:R.
        apply read_page_inv in R. destruct R as (J & _ & _ & _ & Hff).
        destruct (Z.eqb_spec r 0) as [->|Hr].
        -- destruct (Hwb chip1 pb1)
             as (r' & chip' & pb' & last' & new & E & I & Hh & Hff').
           exists r', chip', pb', last', ((AT45.ReadPage page, 0) :: new).
           split; [exact E|]. split; [eapply issued_cons; eauto|].
           split; [exact Hh|]. intros F. apply Hff', Hff, F.
        -- exists r, chip1, pb1, last, [(AT45.ReadPage page, r)].
           split; [reflexivity|]. split; [exact J|].
           split; [apply halts_with_cons; [contradiction | auto]|].
           intros F. destruct (Hff F) as [? _]. contradiction.
Qed.

(** ** Page ranges *)

Lemma page_range_nil lo hi : hi < lo -> page_range lo hi = [].
Proof.
  intros H. unfold page_range. replace (Z.to_nat (hi - lo + 1)) with O by lia.
  reflexivity.
Qed.

Lemma page_range_cons lo hi : lo <= hi -> page_range lo hi = lo :: page_range (lo + 1) hi.
Proof.
  intros H. unfold page_range.
  replace (Z.to_nat (hi - lo + 1)) with (S (Z.to_nat (hi - (lo + 1) + 1))) by lia.
  cbn [seq map]. f_equal; [lia|].
  rewrite <- seq_shift, map_map. apply map_ext. intros i. lia.
Qed.

Lemma page_range_one p : page_range p p = [p].
Proof. rewrite page_range_cons by lia. now rewrite page_range_nil by lia. Qed.

Lemma page_range_In lo hi p : In p (page_range lo hi) <-> lo <= p <= hi.
Proof.
  unfold page_range. rewrite in_map_iff. split.
  - intros (i & <- & Hi). apply in_seq in Hi. lia.
  - intros H. exists (Z.to_nat (p - lo)). split; [lia|]. apply in_seq. lia.
Qed.

Lemma initial_segment_nil {A : Type} (l : list A) : initial_segment [] l.
Proof. exists l. reflexivity. Qed.

Lemma initial_segment_cons {A : Type} (a : A) l1 l2 :
  initial_segment l1 l2 -> initial_segment (a :: l1) (a :: l2).
Proof. intros [rest ->]. exists rest. reflexivity. Qed.

Lemma erase_loop_runs fuel : forall chip pb ix end_page,
  0 <= ix -> end_page < 2 ^ 32 - 1 -> (Z.to_nat (end_page - ix + 1) <= fuel)%nat ->
  exists r chip' new,
    erase_loop fuel chip pb ix end_page = Some (r, chip') /\
    issued chip chip' new /\ halts_with new r /\
    initial_segment (map fst new) (map (fun p => AT45.WritePage p pb) (page_range ix end_page)) /\
    (r = 0 ->
     map fst new = map (fun p => AT45.WritePage p pb) (page_range ix end_page) /\
     forall p, AT45.flash chip' p =
               if (ix <=? p) && (p <=? end_page) then pb else AT45.flash chip p).
Proof.
  induction fuel as [|fuel IH]; intros chip pb ix end_page Hix Hend Hfuel.
  - rewrite erase_loop_done by lia. rewrite page_range_nil by lia.
    exists 0, chip, []. repeat split; auto using issued_nil, initial_segment_nil.
    intros p. destruct (Z.leb_spec ix p), (Z.leb_spec p end_page); try reflexivity; lia.
  - destruct (Z.lt_ge_cases end_page ix) as [Hz|Hz].
    + rewrite erase_loop_done by lia. rewrite page_range_nil by lia.
      exists 0, chip, []. repeat split; auto using issued_nil, initial_segment_nil.
      intros p. destruct (Z.leb_spec ix p), (Z.leb_spec p end_page); try reflexivity; lia.
    + rewrite erase_loop_step by lia. rewrite size_t_small by lia.
      rewrite (page_range_cons ix end_page) by lia. cbn [map].
      destruct (AT45.write_page chip pb ix) as [r chip1] eqn:W.
      apply write_page_inv in W. destruct W as (J & F0 & _).
      destruct (Z.eqb_spec r 0) as [->|Hr].
      * destruct (IH chip1 pb (ix + 1) end_page) as (r' & chip' & new & E & I & Hh & Hp & H0);
          [lia | lia | lia |].
        exists r', chip', ((AT45.WritePage ix pb, 0) :: new).
        split; [exact E|]. split; [eapply issued_cons; eauto|].
        split; [exact Hh|]. split; [cbn; now apply initial_segment_cons|].
        intros ->. destruct (H0 eq_refl) as [Hm Hf]. split; [cbn; now rewrite Hm|].
        intros p. rewrite Hf, (F0 eq_refl).
        destruct (Z.leb_spec (ix + 1) p), (Z.leb_spec ix p), (Z.leb_spec p end_page),
          (Z.eqb_spec p ix); cbn; try reflexivity; lia.
      * exists r, chip1, [(AT45.WritePage ix pb, r)].
        split; [reflexivity|]. split; [exact J|].
        split; [apply halts_with_cons; [contradiction | auto]|].
        split; [cbn; apply initial_segment_cons, initial_segment_nil|].
        intros ->. contradiction.
Qed.

(** ** Chunks of an in-bounds range *)

Lemma chunk_in (ps addr bl : Z) :
  0 < ps < 2 ^ 32 -> 0 <= addr -> 0 < bl -> addr + bl < NO_PAGE ->
  let page := uint32 (addr / ps) in
  let offset := uint32 (addr mod ps) in
  let length := uint32 (ps - offset) in
  let length := if length >? bl then bl else length in
  page = addr / ps /\ offset = addr mod ps /\ addr = page * ps + offset /\
  0 <= page < NO_PAGE /\ 0 <= offset < ps /\
  0 < length <= bl /\ offset + length <= ps /\
  uint64 (addr + length) = addr + length /\
  size_t (bl - length) = bl - length /\
  (0 < bl - length -> addr + length = (page + 1) * ps) /\
  (addr + bl - 1) / ps = (if 0 <? bl - length then (addr + bl - 1) / ps else page).
Proof.
  intros Hps Ha Hbl HT. unfold NO_PAGE in *. cbv zeta.
  pose proof (Z.mod_pos_bound addr ps ltac:(lia)) as Hm.
  pose proof (Z.div_mod addr ps ltac:(lia)) as Hdm.
  assert (Hd : 0 <= addr / ps <= addr).
  { split; [apply Z.div_pos; lia|]. apply Z.div_le_upper_bound; nia. }
  rewrite (uint32_small (addr / ps)) by lia.
  rewrite (uint32_small (addr mod ps)) by lia.
  rewrite (uint32_small (ps - addr mod ps)) by lia.
  set (len := if ps - addr mod ps >? bl then bl else ps - addr mod ps).
  assert (Hlen : 0 < len <= bl /\ addr mod ps + len <= ps /\
                 (0 < bl - len -> len = ps - addr mod ps)).
  { subst len. destruct (Z.gtb_spec (ps - addr mod ps) bl); lia. }
  destruct Hlen as (Hl1 & Hl2 & Hl3).
  repeat match goal with |- _ /\ _ => split end; try lia.
  - apply uint64_small. lia.
  - apply size_t_small. lia.
  - destruct (Z.ltb_spec 0 (bl - len)); [reflexivity|].
    symmetry. apply Z.div_unique with (r := addr mod ps + bl - 1); lia.
Qed.

(** Enter one turn of a page loop on an in-bounds range, the turn unfolded in
    [H]: name the page, the offset and the length of the chunk, and bring in
    what [chunk_in] knows of them. *)
Ltac enter_turn ps addr bl Hps Ha HT H :=
  destruct (chunk_in ps addr bl Hps Ha ltac:(lia) HT)
    as (Hpage & Hoff & Haddr & Hpg & Ho & Hlen & Hfit & H64 & Hsz & Hnext & Hend);
  cbv zeta in Hpage, Hoff, Haddr, Hpg, Ho, Hlen, Hfit, H64, Hsz, Hnext, Hend, H;
  set (page := uint32 (addr / ps)) in *;
  set (offset := uint32 (addr mod ps)) in *;
  set (len := if uint32 (ps - offset) >? bl then bl else uint32 (ps - offset)) in *;
  rewrite H64, Hsz in H.

(** ** Copies *)

Lemma length_memcpy dest at_ src n :
  0 <= at_ -> 0 <= n -> at_ + n <= Z.of_nat (length dest) -> n <= Z.of_nat (length src) ->
  length (memcpy dest at_ src n) = length dest.
Proof.
  intros. unfold memcpy.
  rewrite !length_app, !length_firstn, length_skipn. lia.
Qed.

Lemma nth_memcpy dest at_ src n i :
  0 <= at_ -> 0 <= n -> at_ + n <= Z.of_nat (length dest) -> n <= Z.of_nat (length src) ->
  0 <= i ->
  nth (Z.to_nat i) (memcpy dest at_ src n) x00 =
  if (at_ <=? i) && (i <? at_ + n) then nth (Z.to_nat (i - at_)) src x00
  else nth (Z.to_nat i) dest x00.
Proof.
  intros Hat Hn Hd Hs Hi. unfold memcpy.
  destruct (Z.leb_spec at_ i) as [H1|H1]; cbn [andb].
  - rewrite app_nth2 by (rewrite length_firstn; lia).
    rewrite length_firstn.
    replace (Z.to_nat i - Nat.min (Z.to_nat at_) (length dest))%nat
      with (Z.to_nat (i - at_)) by lia.
    destruct (Z.ltb_spec i (at_ + n)) as [H2|H2].
    + rewrite app_nth1 by (rewrite length_firstn; lia).
      rewrite nth_firstn.
      destruct (Nat.ltb_spec (Z.to_nat (i - at_)) (Z.to_nat n)); [reflexivity | lia].
    + rewrite app_nth2 by (rewrite length_firstn; lia).
      rewrite length_firstn, nth_skipn. f_equal. lia.
  - rewrite app_nth1 by (rewrite length_firstn; lia).
    rewrite nth_firstn.
    destruct (Nat.ltb_spec (Z.to_nat i) (Z.to_nat at_)); [reflexivity | lia].
Qed.

Lemma same_page ps p q o :
  0 < ps -> 0 <= o < ps -> q * ps <= p * ps + o < (q + 1) * ps -> p = q.
Proof. intros. nia. Qed.

Lemma program_loop_effect fuel : forall ps chip pb last buffer addr bl chip' pb' last',
  0 < ps < 2 ^ 32 -> 0 <= addr -> 0 <= bl -> addr + bl < NO_PAGE ->
  Z.of_nat (length pb) = ps ->
  (forall p, Z.of_nat (length (AT45.flash chip p)) = ps) ->
  bl <= Z.of_nat (length buffer) ->
  program_loop fuel ps chip pb last buffer addr bl = Some (0, chip', pb', last') ->
  (forall p, Z.of_nat (length (AT45.flash chip' p)) = ps) /\
  Z.of_nat (length pb') = ps /\
  (0 < bl -> last' = (addr + bl - 1) / ps /\ pb' = AT45.flash chip' last') /\
  (bl = 0 -> chip' = chip /\ pb' = pb /\ last' = last) /\
  (forall p o, 0 <= o < ps ->
     nth (Z.to_nat o) (AT45.flash chip' p) x00 =
     if (addr <=? p * ps + o) && (p * ps + o <? addr + bl)
     then nth (Z.to_nat (p * ps + o - addr)) buffer x00
     else nth (Z.to_nat o)
            (if (0 <? bl) && (p =? last) && (p =? addr / ps)
             then pb else AT45.flash chip p) x00).
Proof.
  induction fuel as [|fuel IH];
    intros ps chip pb last buffer addr bl chip' pb' last' Hps Ha Hbl HT Lpb Lfl Lbuf H.
  all: destruct (Z.eq_dec bl 0) as [Hz|Hz].
  1,3: subst bl; rewrite program_loop_done in H by lia;
       injection H as <- <- <-;
       (split; [exact Lfl|]); (split; [exact Lpb|]); (split; [lia|]);
       (split; [auto|]); intros p o Ho;
       destruct (Z.leb_spec addr (p * ps + o)), (Z.ltb_spec (p * ps + o) (addr + 0));
       cbn; try reflexivity; lia.
  - cbn in H. destruct (Z.gtb_spec bl 0); [discriminate | lia].
  - rewrite program_loop_step in H by lia.
    enter_turn ps addr bl Hps Ha HT H.
    set (pb1 := if last =? page then pb else AT45.flash chip page).
    assert (Lpb1 : Z.of_nat (length pb1) = ps).
    { subst pb1. destruct (last =? page); auto. }
    assert (Hwb : forall chip1,
      AT45.flash chip1 = AT45.flash chip ->
      (let (r, chip2) := AT45.write_page chip1 (memcpy pb1 offset buffer len) page in
       if r =? 0 then
         program_loop fuel ps chip2 (memcpy pb1 offset buffer len) page
           (skipn (Z.to_nat len) buffer) (addr + len) (bl - len)
       else Some (r, chip2, memcpy pb1 offset buffer len, last))
      = Some (0, chip', pb', last') ->
      (forall p, Z.of_nat (length (AT45.flash chip' p)) = ps) /\
      Z.of_nat (length pb') = ps /\
      (0 < bl -> last' = (addr + bl - 1) / ps /\ pb' = AT45.flash chip' last') /\
      (bl = 0 -> chip' = chip /\ pb' = pb /\ last' = last) /\
      (forall p o, 0 <= o < ps ->
         nth (Z.to_nat o) (AT45.flash chip' p) x00 =
         if (addr <=? p * ps + o) && (p * ps + o <? addr + bl)
         then nth (Z.to_nat (p * ps + o - addr)) buffer x00
         else nth (Z.to_nat o)
                (if (0 <? bl) && (p =? last) && (p =? addr / ps)
                 then pb else AT45.flash chip p) x00)).
    { intros chip1 Fl1 E.
      set (pb2 := memcpy pb1 offset buffer len) in *.
      assert (Lpb2 : Z.of_nat (length pb2) = ps).
      { subst pb2. rewrite length_memcpy; lia. }
      destruct (AT45.write_page chip1 pb2 page) as [r chip2] eqn:W.
      apply write_page_inv in W. destruct W as (_ & F0 & _).
      destruct (Z.eqb_spec r 0) as [->|Hr]; [|congruence].
      specialize (F0 eq_refl). rewrite Fl1 in F0.
      apply IH in E; try lia.
      2:{ intros p. rewrite F0. destruct (p =? page); auto. }
      2:{ rewrite length_skipn. lia. }
      destruct E as (L1 & L2 & Hlast & Hzero & Hbytes).
      split; [exact L1|]. split; [exact L2|].
      split.
      { intros _. destruct (Z.ltb_spec 0 (bl - len)) as [Hm|Hm].
        - destruct (Hlast Hm) as [-> ->].
          replace (addr + len + (bl - len) - 1) with (addr + bl - 1) by lia. auto.
        - destruct (Hzero ltac:(lia)) as (-> & -> & ->).
          split; [congruence|]. rewrite F0, Z.eqb_refl. reflexivity. }
      split; [lia|].
      intros p o Hpo. rewrite (Hbytes p o Hpo).
      replace (addr + len + (bl - len)) with (addr + bl) by lia.
      assert (Hinner : (0 <? bl - len) && (p =? page) && (p =? (addr + len) / ps) = false).
      { destruct (Z.ltb_spec 0 (bl - len)) as [Hm|Hm]; [|reflexivity].
        rewrite (Hnext Hm), Z.div_mul by lia.
        destruct (Z.eqb_spec p page), (Z.eqb_spec p (page + 1)); cbn; try reflexivity; lia. }
      rewrite Hinner, F0.
      destruct ((addr + len <=? p * ps + o) && (p * ps + o <? addr + bl)) eqn:C.
      - apply andb_true_iff in C. destruct C as [C1 C2].
        apply Z.leb_le in C1. apply Z.ltb_lt in C2.
        destruct (Z.leb_spec addr (p * ps + o)); [|lia].
        destruct (Z.ltb_spec (p * ps + o) (addr + bl)); [|lia]. cbn [andb].
        rewrite nth_skipn. f_equal. lia.
      - assert (C' : p * ps + o < addr + len \/ addr + bl <= p * ps + o).
        { apply andb_false_iff in C. destruct C as [C|C];
            [apply Z.leb_gt in C | apply Z.ltb_ge in C]; lia. }
        clear C.
        destruct (Z.ltb_spec 0 bl); [|lia]. cbn [andb].
        destruct (Z.eqb_spec p page) as [->|Hne].
        + subst pb2. rewrite nth_memcpy by lia.
          rewrite <- Hpage, Z.eqb_refl, andb_true_r.
          destruct (Z.leb_spec offset o), (Z.ltb_spec o (offset + len)),
            (Z.leb_spec addr (page * ps + o)),
            (Z.ltb_spec (page * ps + o) (addr + bl)); cbn [andb]; try lia;
            try (subst pb1; rewrite (Z.eqb_sym page last); reflexivity).
          f_equal. lia.
        + replace (p =? addr / ps) with false
            by (symmetry; apply Z.eqb_neq; congruence).
          rewrite andb_false_r.
          destruct (Z.leb_spec addr (p * ps + o)),
            (Z.ltb_spec (p * ps + o) (addr + bl)); cbn [andb]; try reflexivity.
          exfalso. apply Hne. apply (same_page ps p page o); lia. }
    destruct (Z.eqb_spec last page) as [Hc|Hc].
    + change (0 =? 0) with true in H. cbv iota beta in H.
      apply (Hwb chip eq_refl). subst pb1. exact H.
    + destruct (AT45.read_page chip pb page) as [[r pb1'] chip1] eqn:R.
      apply read_page_inv in R. destruct R as (_ & Fl & Hld & _).
      destruct (Z.eqb_spec r 0) as [->|Hr]; [|congruence].
      rewrite (Hld eq_refl) in H. apply (Hwb chip1 Fl). exact H.
Qed.

Lemma page_split ps q o x :
  0 < ps -> 0 <= o < ps -> x = q * ps + o -> x / ps = q /\ x mod ps = o.
Proof.
  intros Hps Ho ->. split.
  - symmetry. apply Z.div_unique with (r := o); lia.
  - symmetry. apply Z.mod_unique with (q := q); lia.
Qed.

Lemma read_loop_effect fuel : forall ps chip pb last dest pos addr bl chip' pb' last' dest',
  0 < ps < 2 ^ 32 -> 0 <= addr -> 0 <= bl -> addr + bl < NO_PAGE ->
  Z.of_nat (length pb) = ps ->
  (forall p, Z.of_nat (length (AT45.flash chip p)) = ps) ->
  0 <= pos -> pos + bl <= Z.of_nat (length dest) ->
  read_loop fuel ps chip pb last dest pos addr bl = Some (0, chip', pb', last', dest') ->
  AT45.flash chip' = AT45.flash chip /\
  Z.of_nat (length pb') = ps /\
  length dest' = length dest /\
  (0 < bl -> last' = (addr + bl - 1) / ps /\
                 pb' = if (last =? addr / ps) && (last' =? addr / ps)
                       then pb else AT45.flash chip last') /\
  (bl = 0 -> chip' = chip /\ pb' = pb /\ last' = last /\ dest' = dest) /\
  (forall i, 0 <= i ->
     nth (Z.to_nat i) dest' x00 =
     if (pos <=? i) && (i <? pos + bl)
     then nth (Z.to_nat ((addr + (i - pos)) mod ps))
            (if ((addr + (i - pos)) / ps =? last) && ((addr + (i - pos)) / ps =? addr / ps)
             then pb else AT45.flash chip ((addr + (i - pos)) / ps)) x00
     else nth (Z.to_nat i) dest x00).
Proof.
  induction fuel as [|fuel IH];
    intros ps chip pb last dest pos addr bl chip' pb' last' dest'
           Hps Ha Hbl HT Lpb Lfl Hpos Ldest H.
  all: destruct (Z.eq_dec bl 0) as [Hz|Hz].
  1,3: subst bl; rewrite read_loop_done in H by lia;
       injection H as <- <- <- <-;
       (split; [reflexivity|]); (split; [exact Lpb|]); (split; [reflexivity|]);
       (split; [lia|]); (split; [auto|]); intros i Hi;
       destruct (Z.leb_spec pos i), (Z.ltb_spec i (pos + 0));
       cbn; try reflexivity; lia.
  - cbn in H. destruct (Z.gtb_spec bl 0); [discriminate | lia].
  - rewrite read_loop_step in H by lia.
    enter_turn ps addr bl Hps Ha HT H.
    set (pb1 := if last =? page then pb else AT45.flash chip page).
    assert (Lpb1 : Z.of_nat (length pb1) = ps).
    { subst pb1. destruct (last =? page); auto. }
    assert (Hco : forall chip1,
      AT45.flash chip1 = AT45.flash chip ->
      read_loop fuel ps chip1 pb1 page
        (memcpy dest pos (skipn (Z.to_nat offset) pb1) len) (pos + len)
        (addr + len) (bl - len) = Some (0, chip', pb', last', dest') ->
      AT45.flash chip' = AT45.flash chip /\
      Z.of_nat (length pb') = ps /\
      length dest' = length dest /\
      (0 < bl -> last' = (addr + bl - 1) / ps /\
                 pb' = if (last =? addr / ps) && (last' =? addr / ps)
                       then pb else AT45.flash chip last') /\
      (bl = 0 -> chip' = chip /\ pb' = pb /\ last' = last /\ dest' = dest) /\
      (forall i, 0 <= i ->
         nth (Z.to_nat i) dest' x00 =
         if (pos <=? i) && (i <? pos + bl)
         then nth (Z.to_nat ((addr + (i - pos)) mod ps))
                (if ((addr + (i - pos)) / ps =? last) && ((addr + (i - pos)) / ps =? addr / ps)
                 then pb else AT45.flash chip ((addr + (i - pos)) / ps)) x00
         else nth (Z.to_nat i) dest x00)).
    { intros chip1 Fl1 E.
      set (dest1 := memcpy dest pos (skipn (Z.to_nat offset) pb1) len) in *.
      assert (Lsk : Z.of_nat (length (skipn (Z.to_nat offset) pb1)) = ps - offset).
      { rewrite length_skipn. lia. }
      assert (Ldest1 : length dest1 = length dest).
      { subst dest1. apply length_memcpy; lia. }
      apply IH in E; try lia.
      2:{ intros p. rewrite Fl1. auto. }
      destruct E as (Fl' & L2 & Ld & Hlast & Hzero & Hbytes).
      split; [congruence|]. split; [exact L2|]. split; [congruence|].
      split.
      { intros _. destruct (Z.ltb_spec 0 (bl - len)) as [Hm|Hm].
        - destruct (Hlast Hm) as [-> ->].
          replace (addr + len + (bl - len) - 1) with (addr + bl - 1) by lia.
          split; [reflexivity|]. rewrite Fl1, (Hnext Hm), Z.div_mul by lia.
          assert (Hq : page + 1 <= (addr + bl - 1) / ps).
          { apply Z.div_le_lower_bound; lia. }
          replace (page =? page + 1) with false by (symmetry; apply Z.eqb_neq; lia).
          replace ((addr + bl - 1) / ps =? addr / ps) with false
            by (symmetry; apply Z.eqb_neq; lia).
          now rewrite andb_false_r.
        - destruct (Hzero ltac:(lia)) as (-> & -> & -> & _).
          split; [congruence|]. subst pb1.
          rewrite <- Hpage, Z.eqb_refl, andb_true_r. reflexivity. }
      split; [lia|].
      intros i Hi. rewrite (Hbytes i Hi).
      replace (pos + len + (bl - len)) with (pos + bl) by lia.
      replace (addr + len + (i - (pos + len))) with (addr + (i - pos)) by lia.
      rewrite Fl1.
      destruct ((pos + len <=? i) && (i <? pos + bl)) eqn:C.
      - apply andb_true_iff in C. destruct C as [C1 C2].
        apply Z.leb_le in C1. apply Z.ltb_lt in C2.
        destruct (Z.leb_spec pos i); [|lia].
        destruct (Z.ltb_spec i (pos + bl)); [|lia]. cbn [andb].
        assert (Hq : page + 1 <= (addr + (i - pos)) / ps).
        { apply Z.div_le_lower_bound; lia. }
        replace ((addr + (i - pos)) / ps =? page) with false
          by (symmetry; apply Z.eqb_neq; lia).
        replace ((addr + (i - pos)) / ps =? addr / ps) with false
          by (symmetry; apply Z.eqb_neq; lia).
        rewrite andb_false_r. reflexivity.
      - assert (C' : i < pos + len \/ pos + bl <= i).
        { apply andb_false_iff in C. destruct C as [C|C];
            [apply Z.leb_gt in C | apply Z.ltb_ge in C]; lia. }
        clear C. subst dest1. rewrite nth_memcpy by lia.
        destruct (Z.leb_spec pos i), (Z.ltb_spec i (pos + len)),
          (Z.ltb_spec i (pos + bl)); cbn [andb]; try reflexivity; try lia.
        destruct (page_split ps page (offset + (i - pos)) (addr + (i - pos)))
          as [-> ->]; try lia.
        rewrite <- Hpage, Z.eqb_refl, andb_true_r.
        rewrite nth_skipn. subst pb1. rewrite (Z.eqb_sym page last).
        f_equal. lia. }
    destruct (Z.eqb_spec last page) as [Hc|Hc].
    + apply (Hco chip eq_refl). subst pb1. exact H.
    + destruct (AT45.read_page chip pb page) as [[r pb1'] chip1] eqn:R.
      apply read_page_inv in R. destruct R as (_ & Fl & Hld & _).
      destruct (Z.eqb_spec r 0) as [->|Hr]; [|congruence].
      rewrite (Hld eq_refl) in H. apply (Hco chip1 Fl). exact H.
Qed.

(** ** The accesses of the page loops *)

Lemma pages_spanned_step ps addr bl len :
  0 < ps -> 0 < len <= bl -> addr / ps * ps + addr mod ps = addr ->
  0 <= addr ->
  addr mod ps + len <= ps ->
  (0 < bl - len -> addr + len = (addr / ps + 1) * ps) ->
  pages_spanned ps addr bl = addr / ps :: pages_spanned ps (addr + len) (bl - len) /\
  pages_loaded (addr / ps) (pages_spanned ps (addr + len) (bl - len)) =
  pages_spanned ps (addr + len) (bl - len).
Proof.
  intros Hps Hlen Haddr Ha Hfit Hnext. unfold pages_spanned.
  destruct (Z.ltb_spec 0 bl); [|lia].
  pose proof (Z.mod_pos_bound addr ps ltac:(lia)) as Hm.
  destruct (Z.ltb_spec 0 (bl - len)) as [Hr|Hr].
  - rewrite (Hnext Hr), Z.div_mul by lia.
    replace ((addr / ps + 1) * ps + (bl - len) - 1) with (addr + bl - 1) by lia.
    assert (addr / ps + 1 <= (addr + bl - 1) / ps).
    { apply Z.div_le_lower_bound; lia. }
    split.
    + rewrite (page_range_cons (addr / ps)) by lia. reflexivity.
    + rewrite (page_range_cons (addr / ps + 1)) by lia. cbn.
      destruct (Z.eqb_spec (addr / ps) (addr / ps + 1)); [lia | reflexivity].
  - split; [|reflexivity].
    assert (E : (addr + bl - 1) / ps = addr / ps).
    { symmetry. apply Z.div_unique with (r := addr mod ps + bl - 1); lia. }
    rewrite E. apply page_range_one.
Qed.

Lemma loads_cons e new :
  loads (e :: new) =
  if AT45.is_read (fst e) then AT45.page_of (fst e) :: loads new else loads new.
Proof. unfold loads. cbn. destruct (AT45.is_read (fst e)); reflexivity. Qed.

Lemma stores_cons e new :
  stores (e :: new) =
  if AT45.is_read (fst e) then stores new else AT45.page_of (fst e) :: stores new.
Proof. unfold stores, AT45.is_write. cbn. destruct (AT45.is_read (fst e)); reflexivity. Qed.

Lemma read_loop_journal fuel : forall ps chip pb last dest pos addr bl r chip' pb' last' dest',
  0 < ps < 2 ^ 32 -> 0 <= addr -> 0 <= bl -> addr + bl < NO_PAGE ->
  read_loop fuel ps chip pb last dest pos addr bl = Some (r, chip', pb', last', dest') ->
  exists new,
    issued chip chip' new /\
    stores new = [] /\
    initial_segment (loads new) (pages_loaded last (pages_spanned ps addr bl)) /\
    (r = 0 -> loads new = pages_loaded last (pages_spanned ps addr bl) /\
              last' = if 0 <? bl then (addr + bl - 1) / ps else last) /\
    (0 < bl -> last <> addr / ps ->
     exists a rest, new = (AT45.ReadPage (addr / ps), a) :: rest) /\
    (last' = last \/ In last' (pages_spanned ps addr bl)).
Proof.
  induction fuel as [|fuel IH];
    intros ps chip pb last dest pos addr bl r chip' pb' last' dest' Hps Ha Hbl HT H.
  all: destruct (Z.eq_dec bl 0) as [Hz|Hz].
  1,3: subst bl; rewrite read_loop_done in H by lia; injection H as <- <- <- <- <-;
       exists []; unfold pages_spanned; cbn;
       (split; [apply issued_nil|]); (split; [reflexivity|]);
       (split; [apply initial_segment_nil|]); (split; [auto|]);
       (split; [lia | left; reflexivity]).
  - cbn in H. destruct (Z.gtb_spec bl 0); [discriminate | lia].
  - rewrite read_loop_step in H by lia.
    enter_turn ps addr bl Hps Ha HT H.
    destruct (pages_spanned_step ps addr bl len) as [Sp Ld]; try lia.
    rewrite Sp. rewrite <- Hpage in *. cbn [pages_loaded].
    assert (Hfin : (if 0 <? bl - len then (addr + len + (bl - len) - 1) / ps else page)
                   = if 0 <? bl then (addr + bl - 1) / ps else last).
    { destruct (Z.ltb_spec 0 bl); [|lia]. rewrite Hend.
      replace (addr + len + (bl - len) - 1) with (addr + bl - 1) by lia. reflexivity. }
    destruct (Z.eqb_spec last page) as [Hc|Hc].
    + apply IH in H; try lia. destruct H as (new & I & Hs & Hp & H0 & _ & Hin).
      rewrite Ld in Hp, H0. rewrite Hfin in H0. exists new.
      split; [exact I|]. split; [exact Hs|]. split; [exact Hp|].
      split; [exact H0|]. split; [contradiction|].
      right. destruct Hin as [->|Hin]; [left; reflexivity | right; exact Hin].
    + destruct (AT45.read_page chip pb page) as [[r1 pb1] chip1] eqn:R.
      apply read_page_inv in R. destruct R as (J & _).
      destruct (Z.eqb_spec r1 0) as [->|Hr].
      * apply IH in H; try lia. destruct H as (new & I & Hs & Hp & H0 & _ & Hin).
        rewrite Ld in Hp, H0. rewrite Hfin in H0.
        exists ((AT45.ReadPage page, 0) :: new).
        split; [eapply issued_cons; eauto|].
        rewrite stores_cons, loads_cons. cbn.
        split; [exact Hs|]. split; [now apply initial_segment_cons|].
        split; [intros E; destruct (H0 E) as [-> ->]; auto|]. split; [eauto|].
        right. destruct Hin as [->|Hin]; [left; reflexivity | right; exact Hin].
      * injection H as <- <- <- <- <-.
        exists [(AT45.ReadPage page, r1)].
        split; [exact J|]. split; [reflexivity|].
        split; [apply initial_segment_cons, initial_segment_nil|].
        split; [intros E; contradiction|]. split; [eauto | left; reflexivity].
Qed.

Lemma program_loop_journal fuel : forall ps chip pb last buffer addr bl r chip' pb' last',
  0 < ps < 2 ^ 32 -> 0 <= addr -> 0 <= bl -> addr + bl < NO_PAGE ->
  program_loop fuel ps chip pb last buffer addr bl = Some (r, chip', pb', last') ->
  exists new,
    issued chip chip' new /\
    initial_segment (loads new) (pages_loaded last (pages_spanned ps addr bl)) /\
    initial_segment (stores new) (pages_spanned ps addr bl) /\
    (r = 0 -> loads new = pages_loaded last (pages_spanned ps addr bl) /\
              stores new = pages_spanned ps addr bl /\
              last' = if 0 <? bl then (addr + bl - 1) / ps else last) /\
    (0 < bl -> last <> addr / ps ->
     exists a rest, new = (AT45.ReadPage (addr / ps), a) :: rest) /\
    (last' = last \/ In last' (pages_spanned ps addr bl)).
Proof.
  induction fuel as [|fuel IH];
    intros ps chip pb last buffer addr bl r chip' pb' last' Hps Ha Hbl HT H.
  all: destruct (Z.eq_dec bl 0) as [Hz|Hz].
  1,3: subst bl; rewrite program_loop_done in H by lia; injection H as <- <- <- <-;
       exists []; unfold pages_spanned; cbn;
       (split; [apply issued_nil|]); (split; [apply initial_segment_nil|]);
       (split; [apply initial_segment_nil|]); (split; [auto|]);
       (split; [lia | left; reflexivity]).
  - cbn in H. destruct (Z.gtb_spec bl 0); [discriminate | lia].
  - rewrite program_loop_step in H by lia.
    enter_turn ps addr bl Hps Ha HT H.
    destruct (pages_spanned_step ps addr bl len) as [Sp Ld]; try lia.
    rewrite Sp. rewrite <- Hpage in *.
    assert (Hfin : (if 0 <? bl - len then (addr + len + (bl - len) - 1) / ps else page)
                   = if 0 <? bl then (addr + bl - 1) / ps else last).
    { destruct (Z.ltb_spec 0 bl); [|lia]. rewrite Hend.
      replace (addr + len + (bl - len) - 1) with (addr + bl - 1) by lia. reflexivity. }
    assert (Hwb : forall chip1 pb1,
      (let (r, chip2) := AT45.write_page chip1 (memcpy pb1 offset buffer len) page in
       if r =? 0 then
         program_loop fuel ps chip2 (memcpy pb1 offset buffer len) page
           (skipn (Z.to_nat len) buffer) (addr + len) (bl - len)
       else Some (r, chip2, memcpy pb1 offset buffer len, last))
      = Some (r, chip', pb', last') ->
      exists new,
        issued chip1 chip' new /\
        initial_segment (loads new) (pages_spanned ps (addr + len) (bl - len)) /\
        initial_segment (stores new) (page :: pages_spanned ps (addr + len) (bl - len)) /\
        (r = 0 -> loads new = pages_spanned ps (addr + len) (bl - len) /\
                  stores new = page :: pages_spanned ps (addr + len) (bl - len) /\
                  last' = if 0 <? bl then (addr + bl - 1) / ps else last) /\
        (last' = last \/ In last' (page :: pages_spanned ps (addr + len) (bl - len)))).
    { intros chip1 pb1 E.
      destruct (AT45.write_page chip1 (memcpy pb1 offset buffer len) page)
        as [r2 chip2] eqn:W.
      apply write_page_inv in W. destruct W as (J & _).
      destruct (Z.eqb_spec r2 0) as [->|Hr].
      - apply IH in E; try lia. destruct E as (new & I & Hl & Hs & H0 & _ & Hin).
        rewrite Ld in Hl, H0. rewrite Hfin in H0.
        exists ((AT45.WritePage page (memcpy pb1 offset buffer len), 0) :: new).
        split; [eapply issued_cons; eauto|].
        rewrite stores_cons, loads_cons. cbn.
        split; [exact Hl|].
        split; [now apply initial_segment_cons|].
        split; [intros E; destruct (H0 E) as (-> & -> & ->); auto|].
        right. destruct Hin as [->|Hin]; [left; reflexivity | right; exact Hin].
      - injection E as <- <- <- <-.
        exists [(AT45.WritePage page (memcpy pb1 offset buffer len), r2)].
        split; [exact J|].
        split; [apply initial_segment_nil|].
        split; [apply initial_segment_cons, initial_segment_nil|].
        split; [intros E; contradiction | left; reflexivity]. }
    cbn [pages_loaded].
    destruct (Z.eqb_spec last page) as [Hc|Hc].
    + change (0 =? 0) with true in H. cbv iota beta in H.
      apply Hwb in H. destruct H as (new & I & Hl & Hs & H0 & Hin).
      exists new.
      split; [exact I|]. split; [exact Hl|]. split; [exact Hs|].
      split; [exact H0|]. split; [contradiction | exact Hin].
    + destruct (AT45.read_page chip pb page) as [[r1 pb1] chip1] eqn:R.
      apply read_page_inv in R. destruct R as (J & _).
      destruct (Z.eqb_spec r1 0) as [->|Hr].
      * apply Hwb in H. destruct H as (new & I & Hl & Hs & H0 & Hin).
        exists ((AT45.ReadPage page, 0) :: new).
        split; [eapply issued_cons; eauto|].
        rewrite stores_cons, loads_cons. cbn.
        split; [now apply initial_segment_cons|]. split; [exact Hs|].
        split; [intros E; destruct (H0 E) as (-> & -> & ->); auto|].
        split; [eauto | exact Hin].
      * injection H as <- <- <- <-.
        exists [(AT45.ReadPage page, r1)].
        split; [exact J|].
        split; [apply initial_segment_cons, initial_segment_nil|].
        split; [apply initial_segment_nil|].
        split; [intros E; contradiction|]. split; [eauto | left; reflexivity].
Qed.

(** ** Facts about devices and requests *)

Lemma size_t_range x : 0 <= size_t x < 2 ^ 32.
Proof. unfold size_t, uint32. apply Z.mod_pos_bound. lia. Qed.

Lemma in_bounds_size d addr size :
  geometry_ok d -> in_bounds d addr size ->
  size_t size = size /\ addr + size < NO_PAGE.
Proof.
  intros [_ HT] (Ha & Hs & Hb). unfold NO_PAGE in *.
  split; [apply size_t_small|]; lia.
Qed.

Lemma erase_pages d addr size :
  geometry_ok d -> in_bounds d addr size ->
  uint32 (addr / pagesize d) = addr / pagesize d /\
  uint32 (uint64 (addr + size) / pagesize d) = (addr + size) / pagesize d /\
  0 <= addr / pagesize d <= (addr + size) / pagesize d /\
  (addr + size) / pagesize d < 2 ^ 32 - 1.
Proof.
  intros [Hps HT] (Ha & Hs & Hb). unfold NO_PAGE in *.
  rewrite (uint64_small (addr + size)) by lia.
  assert (H1 : 0 <= addr / pagesize d) by (apply Z.div_pos; lia).
  assert (H2 : addr / pagesize d <= (addr + size) / pagesize d)
    by (apply Z.div_le_mono; lia).
  assert (H3 : (addr + size) / pagesize d <= addr + size)
    by (apply Z.div_le_upper_bound; nia).
  rewrite !uint32_small by lia. lia.
Qed.

Lemma memset_full pb c n :
  Z.of_nat (length pb) = n -> memset pb c n = repeat c (Z.to_nat n).
Proof.
  intros H. unfold memset. rewrite skipn_all2 by lia. apply app_nil_r.
Qed.

Lemma stores_of_reads new :
  Forall (fun e => AT45.is_read (fst e) = true) new -> stores new = [].
Proof.
  induction 1 as [|e new He _ IH]; [reflexivity|].
  rewrite stores_cons, He. exact IH.
Qed.

Lemma device_eta d pb :
  pagebuffer d = Some pb ->
  {| at45 := at45 d; pagesize := pagesize d; totalsize := totalsize d;
     pagebuffer := Some pb; last_page := last_page d |} = d.
Proof. destruct d; cbn. intros ->. reflexivity. Qed.

(** ** The guard on the page buffer *)

Lemma guard_null fuel d buffer addr size :
  pagebuffer d = None ->
  read fuel d buffer addr size = Some (BD_ERROR_NOT_INITIALIZED, d, buffer) /\
  program fuel d buffer addr size = Some (BD_ERROR_NOT_INITIALIZED, d) /\
  erase fuel d addr size = Some (BD_ERROR_NOT_INITIALIZED, d).
Proof. intros H. unfold read, program, erase. rewrite H. auto. Qed.

Lemma init_out_of_memory d :
  fst (init false d) = BD_ERROR_NO_MEMORY /\ pagebuffer (snd (init false d)) = None.
Proof. split; reflexivity. Qed.

Lemma init_ok d :
  0 <= pagesize d ->
  fst (init true d) = BD_ERROR_OK /\ initialized (snd (init true d)).
Proof.
  intros H. split; [reflexivity|]. unfold initialized. cbn.
  eexists. split; [reflexivity|]. rewrite repeat_length. lia.
Qed.

(** Construction followed by a successful [init] gives a device that is
    ready, with an empty and so truthful cache, whatever pointer the storage
    held. *)
Lemma init_makes_ready chip stale :
  0 < AT45.pagesize chip < 2 ^ 32 -> 0 <= AT45.pages chip ->
  AT45.pagesize chip * AT45.pages chip < NO_PAGE ->
  (forall p, Z.of_nat (length (AT45.flash chip p)) = AT45.pagesize chip) ->
  ready (snd (init true (AT45BlockDevice_new chip stale))) /\
  cache_valid (snd (init true (AT45BlockDevice_new chip stale))) /\
  last_page (snd (init true (AT45BlockDevice_new chip stale))) = NO_PAGE.
Proof.
  intros Hps Hpages Htotal Hflash. unfold NO_PAGE in *.
  assert (E1 : uint64 (AT45.pagesize chip) = AT45.pagesize chip)
    by (apply uint64_small; lia).
  assert (E2 : uint64 (AT45.pagesize chip * AT45.pages chip)
               = AT45.pagesize chip * AT45.pages chip)
    by (apply uint64_small; nia).
  split; [|split; [|reflexivity]].
  - split; [|split].
    + unfold geometry_ok, NO_PAGE. cbn. rewrite E1, E2. lia.
    + unfold initialized. cbn. eexists. split; [reflexivity|].
      rewrite repeat_length, E1. lia.
    + intros p. cbn. rewrite E1. apply Hflash.
  - intros H. exfalso. apply H. reflexivity.
Qed.

Lemma constructor_keeps_pointer chip stale :
  pagebuffer (AT45BlockDevice_new chip stale) = stale /\
  last_page (AT45BlockDevice_new chip stale) = NO_PAGE.
Proof. split; reflexivity. Qed.

(** C5 -- The guard of the uninitialised device.  A device on which [init]
    has not run answers [NotInitialized] only if its [pagebuffer] member
    happens to be null, and the constructor does not make it so.  Built over
    storage that held a non-null pointer, the device lets [read], [program]
    and [erase] through: each returns [Ok] and reaches the chip. *)
Theorem guard_passes_on_stale_pointer :
  (exists d' dest',
     read 1 stale_device [x00] 0 1 = Some (BD_ERROR_OK, d', dest') /\
     AT45.journal (at45 d') = [(AT45.ReadPage 0, 0)]) /\
  (exists d',
     program 1 stale_device [xaa] 0 1 = Some (BD_ERROR_OK, d') /\
     AT45.journal (at45 d') =
       [(AT45.ReadPage 0, 0); (AT45.WritePage 0 [xaa; x11; x12; x13], 0)]) /\
  (exists d',
     erase 1 stale_device 0 1 = Some (BD_ERROR_OK, d') /\
     AT45.journal (at45 d') = [(AT45.WritePage 0 [xff; xff; xff; xff], 0)]).
Proof.
  split; [|split].
  - eexists. eexists. split; [vm_compute; reflexivity | reflexivity].
  - eexists. split; [vm_compute; reflexivity | reflexivity].
  - eexists. split; [vm_compute; reflexivity | reflexivity].
Qed.

(** ** The demonstration device *)

Lemma demo_ready faults : ready (demo_device faults).
Proof.
  split; [|split].
  - unfold geometry_ok, NO_PAGE. cbn. lia.
  - exists [x00; x00; x00; x00]. split; reflexivity.
  - intros p. cbn. unfold demo_flash.
    destruct (p =? 0); [reflexivity|]. destruct (p =? 1); [reflexivity|].
    destruct (p =? 2); reflexivity.
Qed.

(** C10 -- A read never writes to the chip.  Whatever the address and the
    size, and whether or not an access fails, a [read] on an initialised
    device returns, issues no [write_page], and leaves every page of the
    flash as it was. *)
Theorem read_leaves_flash_unchanged fuel d dest addr size :
  initialized d -> 0 < pagesize d < 2 ^ 32 ->
  (Z.to_nat (size_t size) <= fuel)%nat ->
  exists r d' dest' new,
    read fuel d dest addr size = Some (r, d', dest') /\
    issued (at45 d) (at45 d') new /\
    stores new = [] /\
    AT45.flash (at45 d') = AT45.flash (at45 d).
Proof.
  intros (pb & Hpb & _) Hps Hfuel. unfold read. rewrite Hpb.
  destruct (read_loop_runs fuel (pagesize d) (at45 d) pb (last_page d) dest 0 addr
              (size_t size) Hps (size_t_range size) Hfuel)
    as (r & chip' & pb' & last' & dest' & new & E & I & _ & Fl & Hr & _).
  rewrite E. eexists r, _, dest', new. split; [reflexivity|]. cbn.
  split; [exact I|]. split; [now apply stores_of_reads | exact Fl].
Qed.

Lemma read_leaves_flash_unchanged_witness :
  exists r d' dest' new,
    read 8 (demo_device [0; 5]) [x00; x00; x00; x00; x00; x00; x00; x00] 2 8
      = Some (r, d', dest') /\
    issued (at45 (demo_device [0; 5])) (at45 d') new /\
    stores new = [] /\
    AT45.flash (at45 d') = AT45.flash (at45 (demo_device [0; 5])).
Proof.
  apply (read_leaves_flash_unchanged 8 (demo_device [0; 5])).
  - exists [x00; x00; x00; x00]. split; reflexivity.
  - cbn. lia.
  - vm_compute. lia.
Defined.

(** ** Errors of the chip *)

Lemma erase_runs fuel d pb addr size :
  geometry_ok d -> in_bounds d addr size -> pagebuffer d = Some pb ->
  (turns d (Erase addr size) <= fuel)%nat ->
  exists r d' new,
    erase fuel d addr size = Some (r, d') /\
    issued (at45 d) (at45 d') new /\ halts_with new r /\
    pagesize d' = pagesize d /\ totalsize d' = totalsize d /\
    pagebuffer d' = Some (memset pb xff (pagesize d)) /\
    initial_segment (map fst new)
      (map (fun p => AT45.WritePage p (memset pb xff (pagesize d)))
           (page_range (addr / pagesize d) ((addr + size) / pagesize d))) /\
    (r = 0 ->
     map fst new =
       map (fun p => AT45.WritePage p (memset pb xff (pagesize d)))
           (page_range (addr / pagesize d) ((addr + size) / pagesize d)) /\
     (forall p, AT45.flash (at45 d') p =
                if (addr / pagesize d <=? p) && (p <=? (addr + size) / pagesize d)
                then memset pb xff (pagesize d) else AT45.flash (at45 d) p) /\
     last_page d' =
       if (last_page d >=? addr / pagesize d) && (last_page d <=? (addr + size) / pagesize d)
       then NO_PAGE else last_page d).
Proof.
  intros Hg Hb Hpb Hfuel. cbn in Hfuel.
  destruct (erase_pages d addr size Hg Hb) as (E1 & E2 & E3 & E4).
  unfold erase. rewrite Hpb. cbv zeta. rewrite E1, E2.
  rewrite (size_t_small (addr / pagesize d)) by lia.
  destruct (erase_loop_runs fuel (at45 d) (memset pb xff (pagesize d))
              (addr / pagesize d) ((addr + size) / pagesize d))
    as (r & chip' & new & E & I & Hh & Hseg & H0); [lia | lia | lia |].
  rewrite E.
  destruct (Z.eqb_spec r 0) as [->|Hr]; cbn [negb].
  - eexists 0, _, new. split; [reflexivity|]. cbn.
    destruct (H0 eq_refl) as [Hm Hf]. repeat split; auto.
  - eexists r, _, new. split; [reflexivity|]. cbn.
    repeat split; auto; contradiction.
Qed.

(** C7 -- Error propagation.  A [read], [program] or [erase] returns, and if
    one of the accesses it issues answers an error code, that access is the
    last one of the call and the call returns that very code. *)
Theorem error_propagation fuel d q :
  geometry_ok d -> in_bounds d (addr_of q) (size_of q) -> (turns d q <= fuel)%nat ->
  exists r d' out new,
    call fuel d q = Some (r, d', out) /\
    issued (at45 d) (at45 d') new /\
    forall pre a e post,
      new = pre ++ (a, e) :: post -> e <> 0 -> post = [] /\ r = e.
Proof.
  intros Hg Hb Hfuel. pose proof Hg as [Hps HT].
  destruct (pagebuffer d) as [pb|] eqn:Hpb.
  - destruct q as [dest addr size | src addr size | addr size]; cbn in *.
    + unfold read. rewrite Hpb.
      destruct (read_loop_runs fuel (pagesize d) (at45 d) pb (last_page d) dest 0 addr
                  (size_t size) Hps (size_t_range size) Hfuel)
        as (r & chip' & pb' & last' & dest' & new & E & I & Hh & _).
      rewrite E. eexists r, _, dest', new. split; [reflexivity|].
      split; [exact I|]. intros pre a e post. apply halts_with_split, Hh.
    + unfold program. rewrite Hpb.
      destruct (program_loop_runs fuel (pagesize d) (at45 d) pb (last_page d) src addr
                  (size_t size) Hps (size_t_range size) Hfuel)
        as (r & chip' & pb' & last' & new & E & I & Hh & _).
      rewrite E. eexists r, _, [], new. split; [reflexivity|].
      split; [exact I|]. intros pre a e post. apply halts_with_split, Hh.
    + destruct (erase_runs fuel d pb addr size Hg Hb Hpb Hfuel)
        as (r & d' & new & E & I & Hh & _).
      rewrite E. exists r, d', [], new. split; [reflexivity|].
      split; [exact I|]. intros pre a e post. apply halts_with_split, Hh.
  - destruct q as [dest addr size | src addr size | addr size]; cbn.
    + destruct (guard_null fuel d dest addr size Hpb) as (-> & _).
      exists BD_ERROR_NOT_INITIALIZED, d, dest, []. split; [reflexivity|].
      split; [apply issued_nil|]. intros [|? ?]; discriminate.
    + destruct (guard_null fuel d src addr size Hpb) as (_ & -> & _).
      exists BD_ERROR_NOT_INITIALIZED, d, [], []. split; [reflexivity|].
      split; [apply issued_nil|]. intros [|? ?]; discriminate.
    + destruct (guard_null fuel d [] addr size Hpb) as (_ & _ & ->).
      exists BD_ERROR_NOT_INITIALIZED, d, [], []. split; [reflexivity|].
      split; [apply issued_nil|]. intros [|? ?]; discriminate.
Qed.

Lemma error_propagation_witness :
  exists r d' out new,
    call 8 (demo_device [0; 0; 0; 7; 0]) (Program [xaa; xbb; xcc; xdd; xee; xf0] 3 6)
      = Some (r, d', out) /\
    issued (at45 (demo_device [0; 0; 0; 7; 0])) (at45 d') new /\
    forall pre a e post,
      new = pre ++ (a, e) :: post -> e <> 0 -> post = [] /\ r = e.
Proof.
  apply (error_propagation 8 (demo_device [0; 0; 0; 7; 0])
           (Program [xaa; xbb; xcc; xdd; xee; xf0] 3 6)).
  - unfold geometry_ok, NO_PAGE. cbn. lia.
  - unfold in_bounds. cbn. lia.
  - vm_compute. lia.
Defined.

(** C9 -- Calls of size zero.  On an initialised device a [read] and a
    [program] of no byte return [Ok] and leave the device as it was: cache,
    chip and journal (no access was issued).  An [erase] of no byte still
    issues one [write_page]: a page of [0xFF] for the page [addr] lies on;
    the call returns what that access answers, and when it answers 0 the page
    is blank on the chip. *)
Theorem zero_size_calls fuel d buffer addr :
  ready d -> in_bounds d addr 0 -> (1 <= fuel)%nat ->
  read fuel d buffer addr 0 = Some (BD_ERROR_OK, d, buffer) /\
  program fuel d buffer addr 0 = Some (BD_ERROR_OK, d) /\
  exists r d',
    erase fuel d addr 0 = Some (r, d') /\
    issued (at45 d) (at45 d')
      [(AT45.WritePage (addr / pagesize d) (repeat xff (Z.to_nat (pagesize d))), r)] /\
    (r = 0 -> AT45.flash (at45 d') (addr / pagesize d) = repeat xff (Z.to_nat (pagesize d))).
Proof.
  intros (Hg & (pb & Hpb & Lpb) & _) Hb Hfuel.
  split; [|split].
  - unfold read. rewrite Hpb. change (size_t 0) with 0.
    rewrite read_loop_done by lia. now rewrite device_eta.
  - unfold program. rewrite Hpb. change (size_t 0) with 0.
    rewrite program_loop_done by lia. now rewrite device_eta.
  - destruct (erase_pages d addr 0 Hg Hb) as (E1 & E2 & E3 & E4).
    unfold erase. rewrite Hpb. cbv zeta. rewrite E1, E2.
    rewrite (size_t_small (addr / pagesize d)) by lia.
    rewrite (memset_full pb xff (pagesize d) Lpb).
    replace (addr + 0) with addr by lia.
    destruct fuel as [|fuel]; [lia|].
    rewrite erase_loop_step by lia.
    destruct (AT45.write_page (at45 d) (repeat xff (Z.to_nat (pagesize d)))
                (addr / pagesize d)) as [r chip1] eqn:W.
    apply write_page_inv in W. destruct W as (J & F0 & _).
    destruct (Z.eqb_spec r 0) as [->|Hr].
    + rewrite size_t_small by lia. rewrite erase_loop_done by lia. cbn [negb Z.eqb].
      eexists 0, _. split; [reflexivity|]. cbn. split; [exact J|].
      intros _. rewrite (F0 eq_refl), Z.eqb_refl. reflexivity.
    + destruct (Z.eqb_spec r 0); [contradiction|]. cbn [negb].
      eexists r, _. split; [reflexivity|]. cbn. split; [exact J | contradiction].
Qed.

Lemma zero_size_calls_witness :
  read 1 (demo_device []) [x00] 5 0 = Some (BD_ERROR_OK, demo_device [], [x00]) /\
  program 1 (demo_device []) [x00] 5 0 = Some (BD_ERROR_OK, demo_device []) /\
  exists r d',
    erase 1 (demo_device []) 5 0 = Some (r, d') /\
    issued (at45 (demo_device [])) (at45 d')
      [(AT45.WritePage (5 / pagesize (demo_device []))
          (repeat xff (Z.to_nat (pagesize (demo_device [])))), r)] /\
    (r = 0 -> AT45.flash (at45 d') (5 / pagesize (demo_device []))
              = repeat xff (Z.to_nat (pagesize (demo_device [])))).
Proof.
  apply (zero_size_calls 1 (demo_device []) [x00] 5).
  - apply demo_ready.
  - unfold in_bounds. cbn. lia.
  - lia.
Defined.

(** ** What a successful program and a successful read do *)

Lemma program_returns fuel d src addr size :
  0 < pagesize d < 2 ^ 32 -> (Z.to_nat (size_t size) <= fuel)%nat ->
  exists r d',
    program fuel d src addr size = Some (r, d') /\
    (fault_free (at45 d) -> pagebuffer d <> None ->
     r = BD_ERROR_OK /\ fault_free (at45 d')).
Proof.
  intros Hps Hfuel. unfold program.
  destruct (pagebuffer d) as [pb|]; [|eexists _, _; split; [reflexivity | congruence]].
  destruct (program_loop_runs fuel (pagesize d) (at45 d) pb (last_page d) src addr
              (size_t size) Hps (size_t_range size) Hfuel)
    as (r & chip' & pb' & last' & new & E & _ & _ & Hff).
  rewrite E. eexists r, _. split; [reflexivity|]. intros F _. cbn. auto.
Qed.

Lemma read_returns fuel d dest addr size :
  0 < pagesize d < 2 ^ 32 -> (Z.to_nat (size_t size) <= fuel)%nat ->
  exists r d' dest',
    read fuel d dest addr size = Some (r, d', dest') /\
    (fault_free (at45 d) -> pagebuffer d <> None ->
     r = BD_ERROR_OK /\ fault_free (at45 d')).
Proof.
  intros Hps Hfuel. unfold read.
  destruct (pagebuffer d) as [pb|]; [|eexists _, _, _; split; [reflexivity | congruence]].
  destruct (read_loop_runs fuel (pagesize d) (at45 d) pb (last_page d) dest 0 addr
              (size_t size) Hps (size_t_range size) Hfuel)
    as (r & chip' & pb' & last' & dest' & new & E & _ & _ & _ & _ & Hff).
  rewrite E. eexists r, _, dest'. split; [reflexivity|]. intros F _. cbn. auto.
Qed.

Lemma program_effect fuel d pb src addr size d' :
  ready d -> pagebuffer d = Some pb -> in_bounds d addr size ->
  size <= Z.of_nat (length src) ->
  program fuel d src addr size = Some (BD_ERROR_OK, d') ->
  ready d' /\ pagesize d' = pagesize d /\ totalsize d' = totalsize d /\
  (0 < size -> last_page d' = (addr + size - 1) / pagesize d /\
               pagebuffer d' = Some (AT45.flash (at45 d') (last_page d'))) /\
  (size = 0 -> d' = d) /\
  (forall p o, 0 <= o < pagesize d ->
     nth (Z.to_nat o) (AT45.flash (at45 d') p) x00 =
     if (addr <=? p * pagesize d + o) && (p * pagesize d + o <? addr + size)
     then nth (Z.to_nat (p * pagesize d + o - addr)) src x00
     else nth (Z.to_nat o)
            (if (0 <? size) && (p =? last_page d) && (p =? addr / pagesize d)
             then pb else AT45.flash (at45 d) p) x00).
Proof.
  intros (Hg & (pb0 & Hpb0 & Lpb) & Hpages) Hpb Hb Hsrc H.
  rewrite Hpb in Hpb0. injection Hpb0 as <-.
  destruct (in_bounds_size d addr size Hg Hb) as [Hsz HT].
  pose proof Hg as [Hps HTT]. destruct Hb as (Ha & Hs & Hb).
  unfold program in H. rewrite Hpb, Hsz in H.
  destruct (program_loop fuel (pagesize d) (at45 d) pb (last_page d) src addr size)
    as [[[[r chip'] pb'] last']|] eqn:E; [|discriminate].
  injection H as -> <-. unfold BD_ERROR_OK in E.
  apply program_loop_effect in E; try assumption; try lia.
  destruct E as (L1 & L2 & Hlast & Hzero & Hbytes). cbn.
  split; [|split; [reflexivity|split; [reflexivity|split; [|split]]]].
  - split; [exact Hg|]. split; [|exact L1]. exists pb'. auto.
  - intros Hpos. destruct (Hlast Hpos) as [-> ->]. auto.
  - intros ->. destruct (Hzero eq_refl) as (-> & -> & ->). now apply device_eta.
  - exact Hbytes.
Qed.

Lemma read_effect fuel d pb dest addr size d' dest' :
  ready d -> pagebuffer d = Some pb -> in_bounds d addr size ->
  size <= Z.of_nat (length dest) ->
  read fuel d dest addr size = Some (BD_ERROR_OK, d', dest') ->
  ready d' /\ pagesize d' = pagesize d /\ totalsize d' = totalsize d /\
  AT45.flash (at45 d') = AT45.flash (at45 d) /\
  length dest' = length dest /\
  (0 < size -> last_page d' = (addr + size - 1) / pagesize d /\
               pagebuffer d' =
                 Some (if (last_page d =? addr / pagesize d) &&
                          (last_page d' =? addr / pagesize d)
                       then pb else AT45.flash (at45 d) (last_page d'))) /\
  (size = 0 -> d' = d /\ dest' = dest) /\
  (forall i, 0 <= i ->
     nth (Z.to_nat i) dest' x00 =
     if i <? size
     then nth (Z.to_nat ((addr + i) mod pagesize d))
            (if ((addr + i) / pagesize d =? last_page d) &&
                ((addr + i) / pagesize d =? addr / pagesize d)
             then pb else AT45.flash (at45 d) ((addr + i) / pagesize d)) x00
     else nth (Z.to_nat i) dest x00).
Proof.
  intros (Hg & (pb0 & Hpb0 & Lpb) & Hpages) Hpb Hb Hdest H.
  rewrite Hpb in Hpb0. injection Hpb0 as <-.
  destruct (in_bounds_size d addr size Hg Hb) as [Hsz HT].
  pose proof Hg as [Hps HTT]. destruct Hb as (Ha & Hs & Hb).
  unfold read in H. rewrite Hpb, Hsz in H.
  destruct (read_loop fuel (pagesize d) (at45 d) pb (last_page d) dest 0 addr size)
    as [[[[[r chip'] pb'] last'] dest1]|] eqn:E; [|discriminate].
  injection H as -> <- <-. unfold BD_ERROR_OK in E.
  apply read_loop_effect in E; try assumption; try lia.
  destruct E as (Fl & L2 & Ld & Hlast & Hzero & Hbytes). cbn.
  split; [|split; [reflexivity|split; [reflexivity|split; [exact Fl|split;
          [exact Ld|split; [|split]]]]]].
  - split; [exact Hg|]. split; [exists pb'; auto|].
    intros p. cbn. rewrite Fl. apply Hpages.
  - intros Hpos. destruct (Hlast Hpos) as [-> ->]. auto.
  - intros ->. destruct (Hzero eq_refl) as (-> & -> & -> & ->).
    split; [now apply device_eta | reflexivity].
  - intros i Hi. rewrite (Hbytes i Hi).
    replace (i - 0) with i by lia.
    destruct (Z.leb_spec 0 i); [|lia]. reflexivity.
Qed.

(** With a truthful cache, a successful program changes the bytes of its
    range and no other byte of the device. *)
Lemma program_bytes fuel d src addr size d' :
  ready d -> cache_valid d -> in_bounds d addr size ->
  size <= Z.of_nat (length src) ->
  program fuel d src addr size = Some (BD_ERROR_OK, d') ->
  forall x,
    byte_at d' x =
    if (addr <=? x) && (x <? addr + size) then nth (Z.to_nat (x - addr)) src x00
    else byte_at d x.
Proof.
  intros Hr Hcv Hb Hsrc H x.
  pose proof Hr as (Hg & (pb & Hpb & Lpb) & Hpages). pose proof Hg as [Hps HT].
  destruct (program_effect fuel d pb src addr size d' Hr Hpb Hb Hsrc H)
    as (_ & Eps & _ & _ & _ & Hbytes).
  unfold byte_at. rewrite Eps.
  pose proof (Z.mod_pos_bound x (pagesize d) ltac:(lia)) as Hm.
  pose proof (Z.div_mod x (pagesize d) ltac:(lia)) as Hdm.
  rewrite (Hbytes (x / pagesize d) (x mod pagesize d) Hm).
  replace (x / pagesize d * pagesize d + x mod pagesize d) with x by lia.
  destruct ((addr <=? x) && (x <? addr + size)); [reflexivity|].
  destruct ((0 <? size) && (x / pagesize d =? last_page d) &&
            (x / pagesize d =? addr / pagesize d)) eqn:C; [|reflexivity].
  apply andb_true_iff in C. destruct C as [C C2].
  apply andb_true_iff in C. destruct C as [_ C1].
  apply Z.eqb_eq in C1. apply Z.eqb_eq in C2.
  assert (Hlp : last_page d <> NO_PAGE).
  { destruct Hb as (Ha & Hs & Hb). rewrite <- C1, C2.
    assert (0 <= addr / pagesize d <= addr).
    { split; [apply Z.div_pos; lia|]. apply Z.div_le_upper_bound; nia. }
    lia. }
  specialize (Hcv Hlp). rewrite Hpb in Hcv. injection Hcv as ->.
  rewrite C1. reflexivity.
Qed.

(** C2 -- Round trip.  On an initialised device whose chip answers no
    error, for every range inside the device, [program] of [s] bytes at [a]
    followed by [read] of [s] bytes at [a] both return [Ok], and the read
    fills the first [s] bytes of its buffer with the first [s] bytes that
    were programmed (and touches nothing past them). *)
Theorem program_read_roundtrip fuel1 fuel2 d buf out a s :
  ready d -> fault_free (at45 d) -> in_bounds d a s ->
  s <= Z.of_nat (length buf) -> s <= Z.of_nat (length out) ->
  (Z.to_nat s <= fuel1)%nat -> (Z.to_nat s <= fuel2)%nat ->
  exists d1 d2 out',
    program fuel1 d buf a s = Some (BD_ERROR_OK, d1) /\
    read fuel2 d1 out a s = Some (BD_ERROR_OK, d2, out') /\
    firstn (Z.to_nat s) out' = firstn (Z.to_nat s) buf /\
    skipn (Z.to_nat s) out' = skipn (Z.to_nat s) out.
Proof.
  intros Hr Hff Hb Hbuf Hout Hf1 Hf2.
  pose proof Hr as (Hg & (pb & Hpb & Lpb) & Hpages). pose proof Hg as [Hps HT].
  destruct (in_bounds_size d a s Hg Hb) as [Hsz _].
  destruct (program_returns fuel1 d buf a s Hps ltac:(rewrite Hsz; exact Hf1))
    as (r1 & d1 & E1 & H1).
  destruct (H1 Hff ltac:(congruence)) as [-> Hff1].
  destruct (program_effect fuel1 d pb buf a s d1 Hr Hpb Hb Hbuf E1)
    as (Hr1 & Eps & Ets & Hlast & _ & Hbytes).
  pose proof Hr1 as (Hg1 & (pb1 & Hpb1 & Lpb1) & Hpages1).
  assert (Hb1 : in_bounds d1 a s) by (unfold in_bounds in *; rewrite Ets; exact Hb).
  destruct (read_returns fuel2 d1 out a s ltac:(rewrite Eps; exact Hps)
              ltac:(rewrite Hsz; exact Hf2)) as (r2 & d2 & out' & E2 & H2).
  destruct (H2 Hff1 ltac:(congruence)) as [-> _].
  destruct (read_effect fuel2 d1 pb1 out a s d2 out' Hr1 Hpb1 Hb1 Hout E2)
    as (_ & _ & _ & _ & Ld & _ & _ & Hread).
  exists d1, d2, out'. split; [exact E1|]. split; [exact E2|].
  destruct Hb as (Ha & Hs & Hb).
  split.
  - apply nth_ext with (d := x00) (d' := x00).
    + rewrite !length_firstn. lia.
    + intros n Hn. rewrite length_firstn in Hn.
      rewrite !nth_firstn.
      destruct (Nat.ltb_spec n (Z.to_nat s)); [|reflexivity].
      rewrite <- (Nat2Z.id n). rewrite (Hread (Z.of_nat n)) by lia.
      destruct (Z.ltb_spec (Z.of_nat n) s); [|lia].
      set (x := a + Z.of_nat n). rewrite Eps in *.
      pose proof (Z.mod_pos_bound x (pagesize d) ltac:(lia)) as Hm.
      pose proof (Z.div_mod x (pagesize d) ltac:(lia)) as Hdm.
      assert (Hin : nth (Z.to_nat (x mod pagesize d))
                      (AT45.flash (at45 d1) (x / pagesize d)) x00
                    = nth (Z.to_nat (Z.of_nat n)) buf x00).
      { rewrite (Hbytes (x / pagesize d) (x mod pagesize d) Hm).
        replace (x / pagesize d * pagesize d + x mod pagesize d) with x by lia.
        destruct (Z.leb_spec a x); [|lia].
        destruct (Z.ltb_spec x (a + s)); [|lia]. cbn [andb].
        f_equal. lia. }
      destruct ((x / pagesize d =? last_page d1) && (x / pagesize d =? a / pagesize d))
        eqn:C; [|exact Hin].
      apply andb_true_iff in C. destruct C as [C1 _]. apply Z.eqb_eq in C1.
      destruct (Hlast ltac:(lia)) as [_ Hcache].
      rewrite Hpb1 in Hcache. injection Hcache as ->. rewrite <- C1. exact Hin.
  - apply nth_ext with (d := x00) (d' := x00).
    + rewrite !length_skipn. lia.
    + intros n Hn. rewrite !nth_skipn.
      rewrite <- (Nat2Z.id (Z.to_nat s + n)). rewrite Hread by lia.
      destruct (Z.ltb_spec (Z.of_nat (Z.to_nat s + n)) s); [lia | reflexivity].
Qed.

Lemma program_read_roundtrip_witness :
  exists d1 d2 out',
    program 6 (demo_device []) [xaa; xbb; xcc; xdd; xee; xf0] 3 6
      = Some (BD_ERROR_OK, d1) /\
    read 6 d1 [x00; x00; x00; x00; x00; x00; x00] 3 6 = Some (BD_ERROR_OK, d2, out') /\
    firstn (Z.to_nat 6) out' = firstn (Z.to_nat 6) [xaa; xbb; xcc; xdd; xee; xf0] /\
    skipn (Z.to_nat 6) out' = skipn (Z.to_nat 6) [x00; x00; x00; x00; x00; x00; x00].
Proof.
  apply (program_read_roundtrip 6 6 (demo_device [])).
  - apply demo_ready.
  - constructor.
  - unfold in_bounds. cbn. lia.
  - cbn. lia.
  - cbn. lia.
  - vm_compute. lia.
  - vm_compute. lia.
Defined.

(** ** The cache across calls *)

Lemma first_page_below_sentinel d addr size :
  geometry_ok d -> in_bounds d addr size -> 0 <= addr / pagesize d < NO_PAGE.
Proof.
  intros [Hps HT] (Ha & Hs & Hb). unfold NO_PAGE in *.
  split; [apply Z.div_pos; lia|].
  assert (addr / pagesize d <= addr) by (apply Z.div_le_upper_bound; nia). lia.
Qed.

(** A successful read keeps a truthful cache truthful. *)
Lemma read_keeps_cache_valid fuel d dest addr size d' dest' :
  ready d -> cache_valid d -> in_bounds d addr size ->
  size <= Z.of_nat (length dest) ->
  read fuel d dest addr size = Some (BD_ERROR_OK, d', dest') ->
  cache_valid d'.
Proof.
  intros Hr Hcv Hb Hdest H.
  pose proof Hr as (Hg & (pb & Hpb & Lpb) & Hpages).
  destruct (read_effect fuel d pb dest addr size d' dest' Hr Hpb Hb Hdest H)
    as (_ & _ & _ & Fl & _ & Hlast & Hzero & _).
  destruct (Z.eq_dec size 0) as [Hz|Hz].
  - destruct (Hzero Hz) as [-> _]. exact Hcv.
  - destruct Hb as (Ha & Hs & Hb'). destruct (Hlast ltac:(lia)) as [Hl Hc].
    intros _. rewrite Hc, Fl. f_equal.
    destruct ((last_page d =? addr / pagesize d) && (last_page d' =? addr / pagesize d))
      eqn:C; [|reflexivity].
    apply andb_true_iff in C. destruct C as [C1 C2].
    apply Z.eqb_eq in C1. apply Z.eqb_eq in C2.
    pose proof (first_page_below_sentinel d addr size Hg (conj Ha (conj Hs Hb'))) as Hp.
    assert (Hlp : last_page d <> NO_PAGE) by lia.
    specialize (Hcv Hlp). rewrite Hpb in Hcv. injection Hcv as ->. congruence.
Qed.

(** A successful program leaves a truthful cache, the page it wrote last. *)
Lemma program_keeps_cache_valid fuel d src addr size d' :
  ready d -> cache_valid d -> in_bounds d addr size ->
  size <= Z.of_nat (length src) ->
  program fuel d src addr size = Some (BD_ERROR_OK, d') ->
  cache_valid d'.
Proof.
  intros Hr Hcv Hb Hsrc H.
  pose proof Hr as (Hg & (pb & Hpb & Lpb) & Hpages).
  destruct (program_effect fuel d pb src addr size d' Hr Hpb Hb Hsrc H)
    as (_ & _ & _ & Hlast & Hzero & _).
  destruct (Z.eq_dec size 0) as [Hz|Hz].
  - rewrite (Hzero Hz). exact Hcv.
  - destruct Hb as (Ha & Hs & Hb'). destruct (Hlast ltac:(lia)) as [_ Hc].
    intros _. exact Hc.
Qed.

(** A successful erase that passes by the cached page breaks the cache, unless
    the cached page was blank already: the page buffer is now all [0xFF]
    while [last_page] still names the page. *)
Lemma erase_breaks_cache fuel d addr size :
  ready d -> in_bounds d addr size ->
  last_page d <> NO_PAGE ->
  (last_page d < addr / pagesize d \/ (addr + size) / pagesize d < last_page d) ->
  AT45.flash (at45 d) (last_page d) <> repeat xff (Z.to_nat (pagesize d)) ->
  (turns d (Erase addr size) <= fuel)%nat ->
  exists r d',
    erase fuel d addr size = Some (r, d') /\
    (r = BD_ERROR_OK -> ~ cache_valid d').
Proof.
  intros Hr Hb Hlp Hout Hnb Hfuel.
  pose proof Hr as (Hg & (pb & Hpb & Lpb) & Hpages).
  destruct (erase_runs fuel d pb addr size Hg Hb Hpb Hfuel)
    as (r & d1 & new & E & _ & _ & _ & _ & Hb1 & _ & H0).
  exists r, d1. split; [exact E|]. intros ->.
  destruct (H0 eq_refl) as (_ & Hf & Hl).
  assert (Hkeep : last_page d1 = last_page d).
  { rewrite Hl.
    destruct (Z.geb_spec (last_page d) (addr / pagesize d)),
      (Z.leb_spec (last_page d) ((addr + size) / pagesize d)); cbn; lia || reflexivity. }
  intros Hcv. unfold cache_valid in Hcv. rewrite Hkeep in Hcv.
  specialize (Hcv Hlp). rewrite Hb1, Hf in Hcv.
  rewrite (memset_full pb xff (pagesize d) Lpb) in Hcv.
  destruct (Z.leb_spec (addr / pagesize d) (last_page d)),
    (Z.leb_spec (last_page d) ((addr + size) / pagesize d)); cbn in Hcv; try lia;
    injection Hcv as Hcv; congruence.
Qed.

(** C1 -- The cache-validity invariant does not survive [erase].  On the
    four-page device, read page 2 (the cache is truthful), then erase page 0
    with the page-aligned, page-sized call [erase(0, 4)].  Both calls return
    [Ok].  The erase fills the page buffer with [0xFF] and, page 2 lying
    outside the pages it wrote, leaves [last_page = 2]: the buffer no longer
    holds what the chip holds for page 2, and the next read of page 2 is
    served from it, returning [0xFF] bytes for a page that was never
    erased. *)
Theorem erase_leaves_stale_cache :
  exists d1 out1 d2 d3 out3,
    read 4 (demo_device []) [x00; x00; x00; x00] 8 4 = Some (BD_ERROR_OK, d1, out1) /\
    out1 = [x20; x21; x22; x23] /\ cache_valid d1 /\
    erase 2 d1 0 4 = Some (BD_ERROR_OK, d2) /\
    last_page d2 = 2 /\
    pagebuffer d2 = Some [xff; xff; xff; xff] /\
    AT45.flash (at45 d2) 2 = [x20; x21; x22; x23] /\
    ~ cache_valid d2 /\
    read 4 d2 [x00; x00; x00; x00] 8 4 = Some (BD_ERROR_OK, d3, out3) /\
    out3 = [xff; xff; xff; xff] /\
    AT45.journal (at45 d3) = AT45.journal (at45 d2).
Proof.
  eexists _, _, _, _, _.
  split; [vm_compute; reflexivity|]. split; [reflexivity|].
  split; [intros _; reflexivity|].
  split; [vm_compute; reflexivity|]. split; [reflexivity|].
  split; [reflexivity|]. split; [reflexivity|].
  split; [intros H; specialize (H ltac:(discriminate)); discriminate|].
  split; [vm_compute; reflexivity|]. split; reflexivity.
Qed.

(** C3 -- Read-modify-write isolation fails on a stale cache.  After the
    read of page 2 and the erase of page 0 above, program one byte at
    address 9.  The call returns [Ok] and address 9 holds the new byte, but
    the page was rebuilt from the stale all-[0xFF] buffer without a load:
    addresses 8, 10 and 11, in the same page and outside the range, lose
    what the chip held for them. *)
Theorem program_on_stale_cache_loses_bytes :
  exists d1 out1 d2 d3,
    read 4 (demo_device []) [x00; x00; x00; x00] 8 4 = Some (BD_ERROR_OK, d1, out1) /\
    erase 2 d1 0 4 = Some (BD_ERROR_OK, d2) /\
    fault_free (at45 d2) /\ ready d2 /\ in_bounds d2 9 1 /\
    map (byte_at d2) [8; 9; 10; 11] = [x20; x21; x22; x23] /\
    program 1 d2 [xaa] 9 1 = Some (BD_ERROR_OK, d3) /\
    map (byte_at d3) [8; 9; 10; 11] = [xff; xaa; xff; xff] /\
    AT45.journal (at45 d3) =
      AT45.journal (at45 d2) ++ [(AT45.WritePage 2 [xff; xaa; xff; xff], 0)].
Proof.
  eexists _, _, _, _.
  split; [vm_compute; reflexivity|].
  split; [vm_compute; reflexivity|].
  split; [constructor|].
  split.
  { split; [unfold geometry_ok, NO_PAGE; cbn; lia|].
    split; [exists [xff; xff; xff; xff]; split; reflexivity|].
    intros p. cbn.
    repeat match goal with |- context [if ?c then _ else _] => destruct c end;
      reflexivity. }
  split; [unfold in_bounds; cbn; lia|].
  split; [reflexivity|].
  split; [vm_compute; reflexivity|].
  split; reflexivity.
Qed.

(** ** The extent of an erase *)

Lemma page_range_snoc lo hi :
  lo <= hi + 1 -> page_range lo (hi + 1) = page_range lo hi ++ [hi + 1].
Proof.
  intros H. remember (Z.to_nat (hi + 1 - lo)) as n eqn:Hn.
  revert lo H Hn. induction n as [|n IH]; intros lo H Hn.
  - assert (lo = hi + 1) by lia. subst lo.
    rewrite page_range_one, page_range_nil by lia. reflexivity.
  - rewrite (page_range_cons lo (hi + 1)), (page_range_cons lo hi) by lia.
    cbn. f_equal. apply IH; lia.
Qed.

Lemma page_range_ascending lo hi : StronglySorted Z.lt (page_range lo hi).
Proof.
  remember (Z.to_nat (hi - lo + 1)) as n eqn:Hn.
  revert lo Hn. induction n as [|n IH]; intros lo Hn.
  - rewrite page_range_nil by lia. constructor.
  - rewrite page_range_cons by lia. constructor.
    + apply IH. lia.
    + apply Forall_forall. intros p Hp. apply page_range_In in Hp. lia.
Qed.

(** The pages an erase writes, against the pages its byte range lies on: one
    more exactly when the range ends on a page boundary. *)
Lemma erased_pages ps addr size :
  0 < ps -> 0 <= addr -> 0 < size ->
  page_range (addr / ps) ((addr + size) / ps) =
  pages_spanned ps addr size ++
  (if (addr + size) mod ps =? 0 then [(addr + size) / ps] else []).
Proof.
  intros Hps Ha Hs. unfold pages_spanned.
  destruct (Z.ltb_spec 0 size); [|lia].
  pose proof (Z.mod_pos_bound (addr + size) ps ltac:(lia)) as Hm.
  pose proof (Z.div_mod (addr + size) ps ltac:(lia)) as Hdm.
  assert (Hlo : addr / ps <= (addr + size - 1) / ps) by (apply Z.div_le_mono; lia).
  destruct (Z.eqb_spec ((addr + size) mod ps) 0) as [E|E].
  - assert (Hq : (addr + size - 1) / ps = (addr + size) / ps - 1).
    { symmetry. apply Z.div_unique with (r := ps - 1); lia. }
    rewrite Hq.
    replace ((addr + size) / ps) with ((addr + size) / ps - 1 + 1) at 1 by lia.
    rewrite page_range_snoc by lia.
    replace ((addr + size) / ps - 1 + 1) with ((addr + size) / ps) by lia.
    reflexivity.
  - assert (Hq : (addr + size - 1) / ps = (addr + size) / ps).
    { symmetry. apply Z.div_unique with (r := (addr + size) mod ps - 1); lia. }
    rewrite Hq. now rewrite app_nil_r.
Qed.

Lemma journal_of_writes new data pages :
  map fst new = map (fun p => AT45.WritePage p data) pages ->
  loads new = [] /\ stores new = pages.
Proof.
  unfold loads, stores. intros ->. clear new.
  induction pages as [|p pages [IH1 IH2]]; [split; reflexivity|].
  cbn. split; [exact IH1 | now rewrite IH2].
Qed.

(** C4 -- The extent of an erase, amended.  A successful [erase(addr, size)]
    of a range inside the device writes [0xFF] over every byte of every page
    from [addr / pagesize] to [(addr + size) / pagesize] inclusive, one
    [write_page] each in ascending order, and leaves every other page as it
    was.  For a range that is not empty these are the pages the range lies
    on, followed by one more page exactly when [addr + size] is a multiple of
    the page size. *)
Theorem erase_extent fuel d addr size :
  ready d -> in_bounds d addr size -> (turns d (Erase addr size) <= fuel)%nat ->
  exists r d' new,
    erase fuel d addr size = Some (r, d') /\
    issued (at45 d) (at45 d') new /\
    (r = BD_ERROR_OK ->
     loads new = [] /\
     stores new = page_range (addr / pagesize d) ((addr + size) / pagesize d) /\
     forall p,
       AT45.flash (at45 d') p =
       if (addr / pagesize d <=? p) && (p <=? (addr + size) / pagesize d)
       then repeat xff (Z.to_nat (pagesize d)) else AT45.flash (at45 d) p) /\
    (0 < size ->
     page_range (addr / pagesize d) ((addr + size) / pagesize d) =
     pages_spanned (pagesize d) addr size ++
     (if (addr + size) mod pagesize d =? 0 then [(addr + size) / pagesize d] else [])).
Proof.
  intros (Hg & (pb & Hpb & Lpb) & _) Hb Hfuel.
  destruct (erase_runs fuel d pb addr size Hg Hb Hpb Hfuel)
    as (r & d' & new & E & I & _ & _ & _ & _ & _ & H0).
  exists r, d', new. split; [exact E|]. split; [exact I|].
  rewrite (memset_full pb xff (pagesize d) Lpb) in H0.
  split.
  - intros ->. destruct (H0 eq_refl) as (Hm & Hf & _).
    destruct (journal_of_writes _ _ _ Hm) as [Hl Hs]. auto.
  - intros Hs. destruct Hg as [Hps _]. destruct Hb as (Ha & _).
    apply erased_pages; lia.
Qed.

Lemma erase_extent_witness :
  exists r d' new,
    erase 3 (demo_device []) 4 8 = Some (r, d') /\
    issued (at45 (demo_device [])) (at45 d') new /\
    (r = BD_ERROR_OK ->
     loads new = [] /\
     stores new = page_range (4 / pagesize (demo_device []))
                    ((4 + 8) / pagesize (demo_device [])) /\
     forall p,
       AT45.flash (at45 d') p =
       if (4 / pagesize (demo_device []) <=? p)
          && (p <=? (4 + 8) / pagesize (demo_device []))
       then repeat xff (Z.to_nat (pagesize (demo_device [])))
       else AT45.flash (at45 (demo_device [])) p) /\
    (0 < 8 ->
     page_range (4 / pagesize (demo_device [])) ((4 + 8) / pagesize (demo_device [])) =
     pages_spanned (pagesize (demo_device [])) 4 8 ++
     (if (4 + 8) mod pagesize (demo_device []) =? 0
      then [(4 + 8) / pagesize (demo_device [])] else [])).
Proof.
  apply (erase_extent 3 (demo_device []) 4 8).
  - apply demo_ready.
  - unfold in_bounds. cbn. lia.
  - vm_compute. lia.
Defined.

(** Against C4 as stated: an erase whose size is a multiple of the page size
    need not reach a page beyond its byte range.  [erase(2, 4)] on pages of
    4 bytes returns [Ok] and writes pages 0 and 1, the two pages that bytes 2
    to 5 lie on; every page it has blanked holds a byte of the range. *)
Lemma erase_of_page_multiple_without_extra_page :
  exists d',
    erase 2 (demo_device []) 2 4 = Some (BD_ERROR_OK, d') /\
    4 mod pagesize (demo_device []) = 0 /\
    pages_spanned (pagesize (demo_device [])) 2 4 = [0; 1] /\
    stores (AT45.journal (at45 d')) = [0; 1] /\
    forall p, AT45.flash (at45 d') p = [xff; xff; xff; xff] ->
              In p (pages_spanned (pagesize (demo_device [])) 2 4).
Proof.
  eexists. split; [vm_compute; reflexivity|].
  split; [reflexivity|]. split; [reflexivity|]. split; [reflexivity|].
  intros p. change (pages_spanned (pagesize (demo_device [])) 2 4) with [0; 1].
  change (AT45.flash (at45 _) p)
    with (if p =? 1 then [xff; xff; xff; xff]
          else if p =? 0 then [xff; xff; xff; xff] else demo_flash p).
  unfold demo_flash.
  destruct (Z.eqb_spec p 1) as [->|]; [right; now left|].
  destruct (Z.eqb_spec p 0) as [->|]; [now left|].
  destruct (p =? 2); discriminate.
Qed.

(** ** The accesses of a read and of a program *)

Lemma transfer_call fuel d q :
  geometry_ok d -> pagebuffer d <> None -> transfer q = true ->
  in_bounds d (addr_of q) (size_of q) -> (turns d q <= fuel)%nat ->
  exists r d' out new,
    call fuel d q = Some (r, d', out) /\
    issued (at45 d) (at45 d') new /\
    (geometry_ok d' /\ pagebuffer d' <> None /\
     pagesize d' = pagesize d /\ totalsize d' = totalsize d) /\
    initial_segment (loads new)
      (pages_loaded (last_page d) (pages_spanned (pagesize d) (addr_of q) (size_of q))) /\
    initial_segment (stores new)
      (pages_stored q (pages_spanned (pagesize d) (addr_of q) (size_of q))) /\
    (r = BD_ERROR_OK ->
     loads new =
       pages_loaded (last_page d) (pages_spanned (pagesize d) (addr_of q) (size_of q)) /\
     stores new = pages_stored q (pages_spanned (pagesize d) (addr_of q) (size_of q)) /\
     last_page d' = if 0 <? size_of q
                    then (addr_of q + size_of q - 1) / pagesize d else last_page d) /\
    (0 < size_of q -> last_page d <> addr_of q / pagesize d ->
     exists a rest, new = (AT45.ReadPage (addr_of q / pagesize d), a) :: rest) /\
    (last_page d' = last_page d \/
     In (last_page d') (pages_spanned (pagesize d) (addr_of q) (size_of q))).
Proof.
  intros Hg Hpb Hq Hb Hfuel. pose proof Hg as [Hps HT].
  destruct (pagebuffer d) as [pb|] eqn:Epb; [clear Hpb | congruence].
  destruct (in_bounds_size d _ _ Hg Hb) as [Hsz HTT].
  pose proof Hb as (Ha & Hs & _).
  destruct q as [dest addr size | src addr size | addr size]; cbn in *;
    [| | discriminate].
  - unfold read. rewrite Epb.
    destruct (read_loop_runs fuel (pagesize d) (at45 d) pb (last_page d) dest 0 addr
                (size_t size) Hps (size_t_range size) Hfuel)
      as (r & chip' & pb' & last' & dest' & new & E & I & _).
    rewrite E. rewrite Hsz in E.
    apply read_loop_journal in E; try lia.
    destruct E as (new' & I' & Hst & Hl & H0 & H1 & H2).
    pose proof (issued_inj _ _ _ _ I I'). subst new'.
    eexists r, _, dest', new. split; [reflexivity|]. cbn.
    split; [exact I|].
    split; [split; [exact Hg | split; [discriminate | split; reflexivity]]|].
    split; [exact Hl|]. split; [rewrite Hst; apply initial_segment_nil|].
    split; [|split; [exact H1 | exact H2]].
    intros ->. destruct (H0 eq_refl) as [-> ->]. auto.
  - unfold program. rewrite Epb.
    destruct (program_loop_runs fuel (pagesize d) (at45 d) pb (last_page d) src addr
                (size_t size) Hps (size_t_range size) Hfuel)
      as (r & chip' & pb' & last' & new & E & I & _).
    rewrite E. rewrite Hsz in E.
    apply program_loop_journal in E; try lia.
    destruct E as (new' & I' & Hl & Hst & H0 & H1 & H2).
    pose proof (issued_inj _ _ _ _ I I'). subst new'.
    eexists r, _, [], new. split; [reflexivity|]. cbn.
    split; [exact I|].
    split; [split; [exact Hg | split; [discriminate | split; reflexivity]]|].
    split; [exact Hl|]. split; [exact Hst|].
    split; [|split; [exact H1 | exact H2]].
    intros ->. destruct (H0 eq_refl) as (-> & -> & ->). auto.
Qed.

Lemma initial_segment_of_nil {A : Type} (l : list A) : initial_segment l [] -> l = [].
Proof. intros [rest H]. symmetry in H. now apply app_eq_nil in H. Qed.

Lemma initial_segment_sorted {A : Type} (R : A -> A -> Prop) (l1 l2 : list A) :
  initial_segment l1 l2 -> StronglySorted R l2 -> StronglySorted R l1.
Proof.
  intros [rest ->]. induction l1 as [|a l1 IH]; intros H; [constructor|].
  cbn in H. inversion H; subst. constructor; [auto|].
  apply Forall_app in H3. tauto.
Qed.

Lemma pages_loaded_sorted last visit :
  StronglySorted Z.lt visit -> StronglySorted Z.lt (pages_loaded last visit).
Proof.
  intros H. destruct visit as [|p rest]; [constructor|]. cbn.
  destruct (last =? p); [now inversion H | exact H].
Qed.

Lemma pages_spanned_within ps addr size p :
  0 < size -> addr / ps = p -> (addr + size - 1) / ps = p ->
  pages_spanned ps addr size = [p].
Proof.
  intros Hs H1 H2. unfold pages_spanned.
  destruct (Z.ltb_spec 0 size); [|lia]. rewrite H1, H2. apply page_range_one.
Qed.

(** C6 -- Cache reuse, amended.  Take two consecutive calls, each a read or
    a program of at least one byte, whose ranges lie within one page [p] of
    an initialised device.  The first returns; if it returns [Ok], the second
    returns having issued no [read_page]; and whatever the second returned,
    a read or program that comes next and starts on another page [p3] begins
    by issuing [read_page(p3)]. *)
Theorem cache_reuse fuel d q1 q2 p :
  ready d -> within_page d q1 p -> within_page d q2 p ->
  (turns d q1 <= fuel)%nat -> (turns d q2 <= fuel)%nat ->
  exists r1 d1 out1,
    call fuel d q1 = Some (r1, d1, out1) /\
    (r1 = BD_ERROR_OK ->
     exists r2 d2 out2 new2,
       call fuel d1 q2 = Some (r2, d2, out2) /\
       issued (at45 d1) (at45 d2) new2 /\
       loads new2 = [] /\
       forall fuel3 q3 p3,
         starts_on d2 q3 p3 -> p3 <> p -> (turns d2 q3 <= fuel3)%nat ->
         exists r3 d3 out3 a rest,
           call fuel3 d2 q3 = Some (r3, d3, out3) /\
           issued (at45 d2) (at45 d3) ((AT45.ReadPage p3, a) :: rest)).
Proof.
  intros (Hg & (pb & Hpb & _) & _) [(T1 & S1 & B1 & P1) E1] [(T2 & S2 & B2 & P2) E2]
         Hf1 Hf2.
  destruct (transfer_call fuel d q1 Hg ltac:(congruence) T1 B1 Hf1)
    as (r1 & d1 & out1 & new1 & C1 & _ & (Hg1 & Hpb1 & Eps1 & Ets1) & _ & _ & H10 & _).
  exists r1, d1, out1. split; [exact C1|]. intros ->.
  destruct (H10 eq_refl) as (_ & _ & Hl1).
  destruct (Z.ltb_spec 0 (size_of q1)); [|lia]. rewrite E1 in Hl1.
  assert (B2' : in_bounds d1 (addr_of q2) (size_of q2))
    by (unfold in_bounds in *; rewrite Ets1; exact B2).
  assert (Hf2' : (turns d1 q2 <= fuel)%nat)
    by (destruct q2; cbn in *; (discriminate || exact Hf2)).
  destruct (transfer_call fuel d1 q2 Hg1 Hpb1 T2 B2' Hf2')
    as (r2 & d2 & out2 & new2 & C2 & I2 & (Hg2 & Hpb2 & Eps2 & Ets2) & Hld2 & _ & _ & _ & Hl2).
  rewrite Eps1 in Hld2, Hl2.
  rewrite (pages_spanned_within (pagesize d) (addr_of q2) (size_of q2) p S2 P2 E2)
    in Hld2, Hl2.
  rewrite Hl1 in Hld2, Hl2. cbn in Hld2. rewrite Z.eqb_refl in Hld2.
  apply initial_segment_of_nil in Hld2.
  assert (Hlast2 : last_page d2 = p).
  { destruct Hl2 as [->|[->|[]]]; reflexivity. }
  exists r2, d2, out2, new2. split; [exact C2|]. split; [exact I2|].
  split; [exact Hld2|].
  intros fuel3 q3 p3 (T3 & S3 & B3 & P3) Hne Hf3.
  destruct (transfer_call fuel3 d2 q3 Hg2 Hpb2 T3 B3 Hf3)
    as (r3 & d3 & out3 & new3 & C3 & I3 & _ & _ & _ & _ & Hfirst & _).
  destruct (Hfirst S3 ltac:(congruence)) as (a & rest & ->).
  exists r3, d3, out3, a, rest. rewrite <- P3. split; [exact C3 | exact I3].
Qed.

Lemma cache_reuse_witness :
  exists r1 d1 out1,
    call 2 (demo_device []) (Read [x00; x00] 5 2) = Some (r1, d1, out1) /\
    (r1 = BD_ERROR_OK ->
     exists r2 d2 out2 new2,
       call 2 d1 (Program [xaa] 7 1) = Some (r2, d2, out2) /\
       issued (at45 d1) (at45 d2) new2 /\
       loads new2 = [] /\
       forall fuel3 q3 p3,
         starts_on d2 q3 p3 -> p3 <> 1 -> (turns d2 q3 <= fuel3)%nat ->
         exists r3 d3 out3 a rest,
           call fuel3 d2 q3 = Some (r3, d3, out3) /\
           issued (at45 d2) (at45 d3) ((AT45.ReadPage p3, a) :: rest)).
Proof.
  apply (cache_reuse 2 (demo_device []) (Read [x00; x00] 5 2) (Program [xaa] 7 1) 1).
  - apply demo_ready.
  - unfold within_page, starts_on, in_bounds. cbn. repeat split; lia.
  - unfold within_page, starts_on, in_bounds. cbn. repeat split; lia.
  - vm_compute. lia.
  - vm_compute. lia.
Defined.

(** Against C6 as stated, when the first call fails: the chip answers error 7
    to the load of the first read, the read returns 7 without recording the
    page, and the second read of the same byte issues [read_page(0)] again. *)
Lemma second_read_reloads_after_error :
  exists d1 out1 d2 out2,
    read 1 (demo_device [7]) [x00] 0 1 = Some (7, d1, out1) /\
    read 1 d1 [x00] 0 1 = Some (BD_ERROR_OK, d2, out2) /\
    within_page (demo_device [7]) (Read [x00] 0 1) 0 /\
    AT45.journal (at45 d1) = [(AT45.ReadPage 0, 7)] /\
    AT45.journal (at45 d2) = [(AT45.ReadPage 0, 7); (AT45.ReadPage 0, 0)].
Proof.
  eexists _, _, _, _.
  split; [vm_compute; reflexivity|]. split; [vm_compute; reflexivity|].
  split; [unfold within_page, starts_on, in_bounds; cbn; repeat split; lia|].
  split; reflexivity.
Qed.

(** C8 -- Multi-page span, amended.  A read or a program of at least one
    byte inside an initialised device returns.  The pages it loads are an
    initial segment of the pages its range lies on, [addr / pagesize] to
    [(addr + size - 1) / pagesize] in ascending order, less the first when it
    is the cached page; the pages a program stores are an initial segment of
    that range, and a read stores none.  No page is loaded or stored twice.
    When the call returns [Ok] the segments are the whole lists and
    [last_page] is the last page of the range. *)
Theorem multi_page_span fuel d q :
  ready d -> transfer q = true -> 0 < size_of q ->
  in_bounds d (addr_of q) (size_of q) -> (turns d q <= fuel)%nat ->
  exists r d' out new,
    call fuel d q = Some (r, d', out) /\
    issued (at45 d) (at45 d') new /\
    initial_segment (loads new) (pages_loaded (last_page d) (visited d q)) /\
    initial_segment (stores new) (pages_stored q (visited d q)) /\
    StronglySorted Z.lt (loads new) /\ StronglySorted Z.lt (stores new) /\
    (r = BD_ERROR_OK ->
     loads new = pages_loaded (last_page d) (visited d q) /\
     stores new = pages_stored q (visited d q) /\
     last_page d' = (addr_of q + size_of q - 1) / pagesize d).
Proof.
  intros (Hg & (pb & Hpb & _) & _) Hq Hs Hb Hfuel.
  set (visit := visited d q).
  destruct (transfer_call fuel d q Hg ltac:(congruence) Hq Hb Hfuel)
    as (r & d' & out & new & C & I & _ & Hl & Hst & H0 & _).
  assert (Hv : pages_spanned (pagesize d) (addr_of q) (size_of q) = visit).
  { unfold pages_spanned, visit, visited.
    destruct (Z.ltb_spec 0 (size_of q)); [reflexivity | lia]. }
  rewrite Hv in *.
  assert (Hsv : StronglySorted Z.lt visit) by apply page_range_ascending.
  exists r, d', out, new. split; [exact C|]. split; [exact I|].
  split; [exact Hl|]. split; [exact Hst|].
  split; [eapply initial_segment_sorted; [exact Hl | now apply pages_loaded_sorted]|].
  split.
  - eapply initial_segment_sorted; [exact Hst|].
    destruct q; cbn; (exact Hsv || constructor).
  - intros E. destruct (H0 E) as (-> & -> & ->).
    destruct (Z.ltb_spec 0 (size_of q)); [auto | lia].
Qed.

Lemma multi_page_span_witness :
  exists r d' out new,
    call 7 (demo_device [0; 0; 0; 7])
      (Program [xaa; xbb; xcc; xdd; xee; xf0; xf1] 3 7) = Some (r, d', out) /\
    issued (at45 (demo_device [0; 0; 0; 7])) (at45 d') new /\
    initial_segment (loads new)
      (pages_loaded (last_page (demo_device [0; 0; 0; 7]))
         (visited (demo_device [0; 0; 0; 7])
            (Program [xaa; xbb; xcc; xdd; xee; xf0; xf1] 3 7))) /\
    initial_segment (stores new)
      (pages_stored (Program [xaa; xbb; xcc; xdd; xee; xf0; xf1] 3 7)
         (visited (demo_device [0; 0; 0; 7])
            (Program [xaa; xbb; xcc; xdd; xee; xf0; xf1] 3 7))) /\
    StronglySorted Z.lt (loads new) /\ StronglySorted Z.lt (stores new) /\
    (r = BD_ERROR_OK ->
     loads new =
       pages_loaded (last_page (demo_device [0; 0; 0; 7]))
         (visited (demo_device [0; 0; 0; 7])
            (Program [xaa; xbb; xcc; xdd; xee; xf0; xf1] 3 7)) /\
     stores new =
       pages_stored (Program [xaa; xbb; xcc; xdd; xee; xf0; xf1] 3 7)
         (visited (demo_device [0; 0; 0; 7])
            (Program [xaa; xbb; xcc; xdd; xee; xf0; xf1] 3 7)) /\
     last_page d' =
       (addr_of (Program [xaa; xbb; xcc; xdd; xee; xf0; xf1] 3 7)
        + size_of (Program [xaa; xbb; xcc; xdd; xee; xf0; xf1] 3 7) - 1)
       / pagesize (demo_device [0; 0; 0; 7])).
Proof.
  apply (multi_page_span 7 (demo_device [0; 0; 0; 7])
           (Program [xaa; xbb; xcc; xdd; xee; xf0; xf1] 3 7)).
  - apply demo_ready.
  - reflexivity.
  - cbn. lia.
  - unfold in_bounds. cbn. lia.
  - vm_compute. lia.
Defined.

(** Against C8 as stated, when an access fails: a read of addresses 2 to 9
    lies on pages 0, 1 and 2; the chip answers error 9 to the load of page 1,
    the read returns 9, and page 2 is never touched. *)
Lemma failed_read_stops_short :
  exists d' out,
    read 8 (demo_device [0; 9]) [x00; x00; x00; x00; x00; x00; x00; x00] 2 8
      = Some (9, d', out) /\
    visited (demo_device [0; 9])
      (Read [x00; x00; x00; x00; x00; x00; x00; x00] 2 8) = [0; 1; 2] /\
    AT45.journal (at45 d') = [(AT45.ReadPage 0, 0); (AT45.ReadPage 1, 9)] /\
    last_page d' = 0.
Proof.
  eexists _, _. split; [vm_compute; reflexivity|].
  split; [reflexivity|]. split; reflexivity.
Qed.

(** * Further properties *)

(** ** A range within one page *)

(** The chunk of a range that ends on the page it starts on is the whole
    range. *)
Lemma chunk_within (ps addr bl : Z) :
  0 < ps < 2 ^ 32 -> 0 <= addr -> 0 < bl -> addr + bl < NO_PAGE ->
  (addr + bl - 1) / ps = addr / ps ->
  uint32 (addr / ps) = addr / ps /\
  uint32 (addr mod ps) = addr mod ps /\
  (if uint32 (ps - uint32 (addr mod ps)) >? bl then bl
   else uint32 (ps - uint32 (addr mod ps))) = bl /\
  0 <= addr mod ps /\ addr mod ps + bl <= ps.
Proof.
  intros Hps Ha Hbl HT Hw.
  destruct (chunk_in ps addr bl Hps Ha Hbl HT)
    as (Hpage & Hoff & Haddr & Hpg & Ho & Hlen & Hfit & _ & _ & Hnext & _).
  cbv zeta in Hpage, Hoff, Haddr, Hpg, Ho, Hlen, Hfit, Hnext.
  set (len := if uint32 (ps - uint32 (addr mod ps)) >? bl then bl
              else uint32 (ps - uint32 (addr mod ps))) in *.
  rewrite Hpage in Haddr, Hnext. rewrite Hoff in Haddr, Ho, Hfit.
  assert (Hlb : len = bl).
  { destruct (Z.eq_dec len bl) as [|Hne]; [assumption|]. exfalso.
    assert (Hn : addr + len = (addr / ps + 1) * ps) by (apply Hnext; lia).
    assert (addr / ps + 1 <= (addr + bl - 1) / ps)
      by (apply Z.div_le_lower_bound; lia).
    lia. }
  repeat match goal with |- _ /\ _ => split end; try assumption; try lia.
Qed.

Lemma read_loop_cached fuel ps chip pb dest pos addr bl :
  0 < ps < 2 ^ 32 -> 0 <= addr -> 0 < bl -> addr + bl < NO_PAGE ->
  (addr + bl - 1) / ps = addr / ps ->
  read_loop (S fuel) ps chip pb (addr / ps) dest pos addr bl =
  Some (0, chip, pb, addr / ps,
        memcpy dest pos (skipn (Z.to_nat (addr mod ps)) pb) bl).
Proof.
  intros Hps Ha Hbl HT Hw.
  destruct (chunk_within ps addr bl Hps Ha Hbl HT Hw) as (E1 & E2 & E3 & _).
  rewrite read_loop_step by lia. cbv zeta.
  rewrite E3, E1, E2, Z.eqb_refl.
  apply read_loop_done. rewrite size_t_small; lia.
Qed.

Lemma program_loop_cached fuel ps chip pb buffer addr bl :
  0 < ps < 2 ^ 32 -> 0 <= addr -> 0 < bl -> addr + bl < NO_PAGE ->
  (addr + bl - 1) / ps = addr / ps ->
  program_loop (S fuel) ps chip pb (addr / ps) buffer addr bl =
  let pb2 := memcpy pb (addr mod ps) buffer bl in
  let (r, chip2) := AT45.write_page chip pb2 (addr / ps) in
  Some (r, chip2, pb2, addr / ps).
Proof.
  intros Hps Ha Hbl HT Hw.
  destruct (chunk_within ps addr bl Hps Ha Hbl HT Hw) as (E1 & E2 & E3 & _).
  rewrite program_loop_step by lia. cbv zeta.
  rewrite E3, E1, E2, Z.eqb_refl.
  change (0 =? 0) with true. cbv iota.
  destruct (AT45.write_page chip (memcpy pb (addr mod ps) buffer bl) (addr / ps))
    as [r chip2].
  destruct (Z.eqb_spec r 0) as [->|Hr]; [|reflexivity].
  apply program_loop_done. rewrite size_t_small; lia.
Qed.

Lemma erase_loop_fault_free fuel : forall chip pb ix end_page r chip',
  fault_free chip ->
  erase_loop fuel chip pb ix end_page = Some (r, chip') ->
  r = 0 /\ fault_free chip'.
Proof.
  induction fuel as [|fuel IH]; intros chip pb ix end_page r chip' F H.
  - cbn in H. destruct (ix <=? end_page); [discriminate|].
    injection H as <- <-. auto.
  - destruct (Z.le_gt_cases ix end_page) as [Hle|Hgt].
    + rewrite erase_loop_step in H by lia.
      destruct (AT45.write_page chip pb ix) as [r1 chip1] eqn:W.
      apply write_page_inv in W. destruct W as (_ & _ & _ & Hff).
      destruct (Hff F) as [-> F1]. change (0 =? 0) with true in H. cbv iota in H.
      eapply IH; eauto.
    + rewrite erase_loop_done in H by lia. injection H as <- <-. auto.
Qed.

Lemma erase_fault_free fuel d addr sz r d' :
  fault_free (at45 d) -> pagebuffer d <> None ->
  erase fuel d addr sz = Some (r, d') ->
  r = BD_ERROR_OK /\ fault_free (at45 d').
Proof.
  intros F Hpb H. unfold erase in H.
  destruct (pagebuffer d) as [pb|]; [|congruence]. cbv zeta in H.
  match type of H with
  | match ?e with _ => _ end = _ => destruct e as [[r1 chip1]|] eqn:E; [|discriminate]
  end.
  destruct (erase_loop_fault_free _ _ _ _ _ _ _ F E) as [-> F1].
  change (negb (0 =? 0)) with false in H. cbv iota in H.
  injection H as <- <-. auto.
Qed.

(** ** Initialisation *)

(** X1 -- A failed [init].  When the allocation fails, [init] returns
    [BD_ERROR_NO_MEMORY] and leaves a null page buffer, whatever pointer the
    device held before; every [read], [program] and [erase] that follows
    returns [BD_ERROR_NOT_INITIALIZED] and leaves the device, the chip and
    the caller's buffer as they were. *)
Theorem failed_init_guards_calls fuel d buffer addr sz :
  fst (init false d) = BD_ERROR_NO_MEMORY /\
  read fuel (snd (init false d)) buffer addr sz
    = Some (BD_ERROR_NOT_INITIALIZED, snd (init false d), buffer) /\
  program fuel (snd (init false d)) buffer addr sz
    = Some (BD_ERROR_NOT_INITIALIZED, snd (init false d)) /\
  erase fuel (snd (init false d)) addr sz
    = Some (BD_ERROR_NOT_INITIALIZED, snd (init false d)).
Proof.
  split; [reflexivity|]. apply guard_null. reflexivity.
Qed.

(** A read within the cached page is served from the page buffer and leaves
    the device as it was. *)
Lemma read_within_cached_page fuel d pb dest addr sz :
  geometry_ok d -> pagebuffer d = Some pb -> in_bounds d addr sz -> 0 < sz ->
  addr / pagesize d = last_page d -> (addr + sz - 1) / pagesize d = last_page d ->
  (1 <= fuel)%nat ->
  read fuel d dest addr sz =
  Some (BD_ERROR_OK, d,
        memcpy dest 0 (skipn (Z.to_nat (addr mod pagesize d)) pb) sz).
Proof.
  intros Hg Hpb Hb Hs P1 P2 Hfuel.
  destruct (in_bounds_size d addr sz Hg Hb) as [Hsz HT].
  destruct Hg as [Hps _]. destruct Hb as (Ha & _ & _).
  unfold read. rewrite Hpb, Hsz. destruct fuel as [|fuel]; [lia|].
  rewrite <- P1. rewrite read_loop_cached by (try lia; congruence).
  rewrite P1. now rewrite device_eta.
Qed.

(** X13 -- A read within the cached page needs no chip.  When the range of a
    read lies within the page [last_page] names, the call returns [Ok], the
    bytes come from the page buffer, and the device is left exactly as it
    was: no access is issued, so a chip that would answer errors is not even
    asked. *)
Theorem cached_read_needs_no_chip fuel d pb dest addr sz :
  geometry_ok d -> pagebuffer d = Some pb -> in_bounds d addr sz -> 0 < sz ->
  addr / pagesize d = last_page d -> (addr + sz - 1) / pagesize d = last_page d ->
  (1 <= fuel)%nat ->
  read fuel d dest addr sz =
  Some (BD_ERROR_OK, d,
        memcpy dest 0 (skipn (Z.to_nat (addr mod pagesize d)) pb) sz).
Proof.
  intros Hg Hpb Hb Hs P1 P2 Hfuel.
  now apply read_within_cached_page.
Qed.

Lemma cached_read_needs_no_chip_witness :
  read 1 cached_device [x00; x00] 5 2 =
  Some (BD_ERROR_OK, cached_device,
        memcpy [x00; x00] 0
          (skipn (Z.to_nat (5 mod pagesize cached_device)) [x01; x02; x03; x04]) 2).
Proof.
  apply (cached_read_needs_no_chip 1 cached_device [x01; x02; x03; x04] [x00; x00] 5 2).
  - unfold geometry_ok, NO_PAGE. cbn. lia.
  - reflexivity.
  - unfold in_bounds. cbn. lia.
  - lia.
  - reflexivity.
  - reflexivity.
  - lia.
Defined.

(** X2 -- [init] keeps [last_page].  [init] replaces the page buffer by a
    zero-filled one and leaves [last_page] as it was.  Run on a device that
    has a page in its cache, it makes the next read within that page return
    [Ok] with zero bytes, without any access to the chip. *)
Theorem init_again_keeps_last_page fuel d dest addr sz :
  geometry_ok d -> in_bounds d addr sz -> 0 < sz ->
  addr / pagesize d = last_page d -> (addr + sz - 1) / pagesize d = last_page d ->
  sz <= Z.of_nat (length dest) -> (1 <= fuel)%nat ->
  fst (init true d) = BD_ERROR_OK /\
  last_page (snd (init true d)) = last_page d /\
  exists dest',
    read fuel (snd (init true d)) dest addr sz
      = Some (BD_ERROR_OK, snd (init true d), dest') /\
    forall i, 0 <= i < sz -> nth (Z.to_nat i) dest' x00 = x00.
Proof.
  intros Hg Hb Hs P1 P2 Hdest Hfuel.
  split; [reflexivity|]. split; [reflexivity|].
  set (zeros := repeat x00 (Z.to_nat (pagesize d))).
  assert (Hpb : pagebuffer (snd (init true d)) = Some zeros) by reflexivity.
  eexists. split.
  - apply (read_within_cached_page fuel (snd (init true d)) zeros dest addr sz);
      try assumption.
  - intros i Hi. change (pagesize (snd (init true d))) with (pagesize d).
    pose proof Hg as [Hps _]. pose proof Hb as (Ha & _ & HbT).
    destruct (in_bounds_size d addr sz Hg Hb) as [_ HT].
    destruct (chunk_within (pagesize d) addr sz Hps Ha Hs HT ltac:(congruence))
      as (_ & _ & _ & Ho & Hfit).
    assert (Lz : Z.of_nat (length zeros) = pagesize d).
    { subst zeros. rewrite repeat_length. lia. }
    rewrite nth_memcpy; try lia.
    2:{ rewrite length_skipn. lia. }
    destruct (Z.leb_spec 0 i); [|lia]. destruct (Z.ltb_spec i (0 + sz)); [|lia].
    cbn [andb]. rewrite nth_skipn. subst zeros. apply nth_repeat.
Qed.

Lemma init_again_keeps_last_page_witness :
  fst (init true cached_device) = BD_ERROR_OK /\
  last_page (snd (init true cached_device)) = last_page cached_device /\
  exists dest',
    read 1 (snd (init true cached_device)) [xaa; xaa] 5 2
      = Some (BD_ERROR_OK, snd (init true cached_device), dest') /\
    forall i, 0 <= i < 2 -> nth (Z.to_nat i) dest' x00 = x00.
Proof.
  apply (init_again_keeps_last_page 1 cached_device [xaa; xaa] 5 2).
  - unfold geometry_ok, NO_PAGE. cbn. lia.
  - unfold in_bounds. cbn. lia.
  - lia.
  - reflexivity.
  - reflexivity.
  - cbn. lia.
  - lia.
Defined.

(** X3 -- The first transfer loads.  On a device just constructed and
    initialised over a well-formed chip, whatever pointer its storage held,
    every read or program of at least one byte inside the device returns and
    begins with a [read_page] of the page its range starts on. *)
Theorem first_transfer_loads fuel chip stale q :
  0 < AT45.pagesize chip < 2 ^ 32 -> 0 <= AT45.pages chip ->
  AT45.pagesize chip * AT45.pages chip < NO_PAGE ->
  (forall p, Z.of_nat (length (AT45.flash chip p)) = AT45.pagesize chip) ->
  transfer q = true -> 0 < size_of q ->
  in_bounds (snd (init true (AT45BlockDevice_new chip stale))) (addr_of q) (size_of q) ->
  (turns (snd (init true (AT45BlockDevice_new chip stale))) q <= fuel)%nat ->
  exists r d' out a rest,
    call fuel (snd (init true (AT45BlockDevice_new chip stale))) q = Some (r, d', out) /\
    AT45.journal (at45 d') =
      AT45.journal chip ++ (AT45.ReadPage (addr_of q / AT45.pagesize chip), a) :: rest.
Proof.
  intros Hps Hpages Htotal Hflash Hq Hs Hb Hfuel.
  destruct (init_makes_ready chip stale Hps Hpages Htotal Hflash) as (Hr & _ & Hl).
  set (d := snd (init true (AT45BlockDevice_new chip stale))) in *.
  destruct Hr as (Hg & (pb & Hpb & _) & _).
  destruct (transfer_call fuel d q Hg ltac:(congruence) Hq Hb Hfuel)
    as (r & d' & out & new & C & I & _ & _ & _ & _ & Hfirst & _).
  pose proof (first_page_below_sentinel d _ _ Hg Hb) as Hp.
  destruct (Hfirst Hs ltac:(rewrite Hl; lia)) as (a & rest & ->).
  exists r, d', out, a, rest. split; [exact C|].
  unfold issued in I. rewrite I. subst d. cbn.
  rewrite uint64_small by lia. reflexivity.
Qed.

Lemma first_transfer_loads_witness :
  exists r d' out a rest,
    call 2 (snd (init true (AT45BlockDevice_new (demo_chip []) (Some [xaa]))))
      (Program [xbb; xcc] 6 2) = Some (r, d', out) /\
    AT45.journal (at45 d') =
      AT45.journal (demo_chip []) ++
      (AT45.ReadPage (addr_of (Program [xbb; xcc] 6 2) / AT45.pagesize (demo_chip [])), a)
      :: rest.
Proof.
  apply (first_transfer_loads 2 (demo_chip []) (Some [xaa]) (Program [xbb; xcc] 6 2)).
  - cbn. lia.
  - cbn. lia.
  - unfold NO_PAGE. cbn. lia.
  - intros p. cbn. unfold demo_flash.
    destruct (p =? 0); [reflexivity|]. destruct (p =? 1); [reflexivity|].
    destruct (p =? 2); reflexivity.
  - reflexivity.
  - cbn. lia.
  - unfold in_bounds. cbn. lia.
  - vm_compute. lia.
Defined.

(** ** Geometry *)

(** X4 -- The geometry is fixed.  The three granularities are the page size,
    and neither [init] nor any [read], [program] or [erase], whatever it
    returns, changes them or [size]. *)
Theorem geometry_is_fixed fuel d q r d' out ok :
  call fuel d q = Some (r, d', out) ->
  (get_read_size d' = get_read_size d /\ get_program_size d' = get_read_size d /\
   get_erase_size d' = get_read_size d /\ size d' = size d) /\
  (get_read_size (snd (init ok d)) = get_read_size d /\
   get_program_size (snd (init ok d)) = get_read_size d /\
   get_erase_size (snd (init ok d)) = get_read_size d /\
   size (snd (init ok d)) = size d).
Proof.
  intros H. split.
  2:{ unfold init. cbn. destruct (calloc ok (pagesize d)); cbn; auto. }
  unfold get_read_size, get_program_size, get_erase_size, size.
  destruct q as [dest addr sz | src addr sz | addr sz]; cbn in H.
  - unfold read in H. destruct (pagebuffer d) as [pb|].
    + destruct (read_loop _ _ _ _ _ _ _ _ _) as [[[[[r1 c1] pb1] l1] o1]|];
        [|discriminate].
      injection H as <- <- <-. cbn. auto.
    + injection H as <- <- <-. auto.
  - unfold program in H. destruct (pagebuffer d) as [pb|].
    + destruct (program_loop _ _ _ _ _ _ _ _) as [[[[r1 c1] pb1] l1]|];
        [|discriminate].
      injection H as <- <- <-. cbn. auto.
    + injection H as <- <- <-. auto.
  - unfold erase in H. destruct (pagebuffer d) as [pb|].
    + cbv zeta in H.
      destruct (erase_loop _ _ _ _ _) as [[r1 c1]|]; [|discriminate].
      destruct (negb (r1 =? 0)); injection H as <- <- <-; cbn; auto.
    + injection H as <- <- <-. auto.
Qed.


Lemma geometry_is_fixed_witness :
  (get_read_size
     (mkDevice (AT45.mk 4 4 demo_flash [] [(AT45.ReadPage 0, 0)]) 4 16
        (Some [x10; x11; x12; x13]) 0) = get_read_size (demo_device []) /\
   get_program_size
     (mkDevice (AT45.mk 4 4 demo_flash [] [(AT45.ReadPage 0, 0)]) 4 16
        (Some [x10; x11; x12; x13]) 0) = get_read_size (demo_device []) /\
   get_erase_size
     (mkDevice (AT45.mk 4 4 demo_flash [] [(AT45.ReadPage 0, 0)]) 4 16
        (Some [x10; x11; x12; x13]) 0) = get_read_size (demo_device []) /\
   size
     (mkDevice (AT45.mk 4 4 demo_flash [] [(AT45.ReadPage 0, 0)]) 4 16
        (Some [x10; x11; x12; x13]) 0) = size (demo_device [])) /\
  (get_read_size (snd (init false (demo_device []))) = get_read_size (demo_device []) /\
   get_program_size (snd (init false (demo_device []))) = get_read_size (demo_device []) /\
   get_erase_size (snd (init false (demo_device []))) = get_read_size (demo_device []) /\
   size (snd (init false (demo_device []))) = size (demo_device [])).
Proof.
  apply (geometry_is_fixed 1 (demo_device []) (Read [x00] 0 1) 0
           (mkDevice (AT45.mk 4 4 demo_flash [] [(AT45.ReadPage 0, 0)]) 4 16
              (Some [x10; x11; x12; x13]) 0) [x10] false).
  reflexivity.
Defined.

(** ** The pages a call reaches *)

Lemma initial_segment_In {A : Type} (l1 l2 : list A) (x : A) :
  initial_segment l1 l2 -> In x l1 -> In x l2.
Proof. intros [rest ->] H. apply in_or_app. now left. Qed.

Lemma pages_loaded_In last visit p : In p (pages_loaded last visit) -> In p visit.
Proof.
  destruct visit as [|q rest]; cbn; [auto|].
  destruct (last =? q); cbn; auto.
Qed.

Lemma pages_spanned_In ps addr sz p :
  In p (pages_spanned ps addr sz) ->
  0 < sz /\ addr / ps <= p <= (addr + sz - 1) / ps.
Proof.
  unfold pages_spanned. destruct (Z.ltb_spec 0 sz) as [Hs|Hs]; [|intros []].
  intros Hin. apply page_range_In in Hin. auto.
Qed.

Lemma access_in_loads_or_stores a e new :
  In (a, e) new -> In (AT45.page_of a) (loads new) \/ In (AT45.page_of a) (stores new).
Proof.
  induction new as [|[a0 e0] new IH]; [intros []|].
  rewrite loads_cons, stores_cons. cbn [fst]. intros [H|H].
  - injection H as -> ->. destruct (AT45.is_read a); [left | right]; now left.
  - destruct (IH H) as [H'|H']; destruct (AT45.is_read a0); cbn; auto.
Qed.

(** X6 -- Transfers stay on the chip.  On a device whose size is its page
    size times the number of pages of the chip, every access a read or a
    program of a range inside the device issues, whether or not the call
    succeeds, is to a page index from 0 to [pages - 1]. *)
Theorem transfers_stay_on_chip fuel d q :
  ready d -> size d = get_erase_size d * AT45.pages (at45 d) ->
  transfer q = true -> in_bounds d (addr_of q) (size_of q) ->
  (turns d q <= fuel)%nat ->
  exists r d' out new,
    call fuel d q = Some (r, d', out) /\
    issued (at45 d) (at45 d') new /\
    forall a e, In (a, e) new -> 0 <= AT45.page_of a < AT45.pages (at45 d).
Proof.
  unfold size, get_erase_size.
  intros (Hg & (pb & Hpb & _) & _) Hsize Hq Hb Hfuel.
  destruct (transfer_call fuel d q Hg ltac:(congruence) Hq Hb Hfuel)
    as (r & d' & out & new & C & I & _ & Hl & Hs & _).
  exists r, d', out, new. split; [exact C|]. split; [exact I|].
  intros a e Hin.
  assert (Hv : In (AT45.page_of a)
                 (pages_spanned (pagesize d) (addr_of q) (size_of q))).
  { destruct (access_in_loads_or_stores a e new Hin) as [H|H].
    - eapply pages_loaded_In, initial_segment_In; eauto.
    - pose proof (initial_segment_In _ _ _ Hs H) as H'.
      destruct q; cbn in H'; (exact H' || contradiction). }
  apply pages_spanned_In in Hv. destruct Hv as (Hpos & Hlo & Hhi).
  destruct Hg as [Hps _]. destruct Hb as (Ha & _ & HbT).
  assert (0 <= addr_of q / pagesize d) by (apply Z.div_pos; lia).
  assert ((addr_of q + size_of q - 1) / pagesize d < AT45.pages (at45 d))
    by (apply Z.div_lt_upper_bound; lia).
  lia.
Qed.

Lemma transfers_stay_on_chip_witness :
  exists r d' out new,
    call 8 (demo_device [0; 0; 5]) (Program [xaa; xbb; xcc; xdd; xee; xf0; xf1; xf2] 8 8)
      = Some (r, d', out) /\
    issued (at45 (demo_device [0; 0; 5])) (at45 d') new /\
    forall a e, In (a, e) new ->
                0 <= AT45.page_of a < AT45.pages (at45 (demo_device [0; 0; 5])).
Proof.
  apply (transfers_stay_on_chip 8 (demo_device [0; 0; 5])
           (Program [xaa; xbb; xcc; xdd; xee; xf0; xf1; xf2] 8 8)).
  - apply demo_ready.
  - reflexivity.
  - reflexivity.
  - unfold in_bounds. cbn. lia.
  - vm_compute. lia.
Defined.

(** X5 -- An erase up to the end of the device writes one page too far.  On
    a device whose size is its page size times the number of pages of the
    chip, with a chip that answers no error, an [erase] of a range that ends
    at [size] returns [Ok] after writing every page from the one [addr] lies
    on up to page index [pages], which is one past the last page of the
    chip. *)
Theorem erase_to_end_writes_past_last_page fuel d addr sz :
  ready d -> size d = get_erase_size d * AT45.pages (at45 d) ->
  in_bounds d addr sz -> addr + sz = size d -> fault_free (at45 d) ->
  (turns d (Erase addr sz) <= fuel)%nat ->
  exists d' new,
    erase fuel d addr sz = Some (BD_ERROR_OK, d') /\
    issued (at45 d) (at45 d') new /\
    stores new = page_range (addr / pagesize d) (AT45.pages (at45 d)) /\
    In (AT45.pages (at45 d)) (stores new).
Proof.
  unfold size, get_erase_size.
  intros (Hg & (pb & Hpb & _) & _) Hsize Hb Hend F Hfuel.
  destruct (erase_runs fuel d pb addr sz Hg Hb Hpb Hfuel)
    as (r & d' & new & E & I & _ & _ & _ & _ & _ & H0).
  destruct (erase_fault_free fuel d addr sz r d' F ltac:(congruence) E) as [-> _].
  destruct (H0 eq_refl) as (Hm & _).
  destruct (journal_of_writes _ _ _ Hm) as [_ Hs].
  destruct (erase_pages d addr sz Hg Hb) as (_ & _ & Hlo & _).
  destruct Hg as [Hps _].
  assert (Hlast : (addr + sz) / pagesize d = AT45.pages (at45 d)).
  { rewrite Hend, Hsize, Z.mul_comm. apply Z.div_mul. lia. }
  rewrite Hlast in Hs, Hlo.
  exists d', new. split; [exact E|]. split; [exact I|]. split; [exact Hs|].
  rewrite Hs. apply page_range_In. lia.
Qed.

Lemma erase_to_end_writes_past_last_page_witness :
  exists d' new,
    erase 3 (demo_device []) 8 8 = Some (BD_ERROR_OK, d') /\
    issued (at45 (demo_device [])) (at45 d') new /\
    stores new = page_range (8 / pagesize (demo_device []))
                   (AT45.pages (at45 (demo_device []))) /\
    In (AT45.pages (at45 (demo_device []))) (stores new).
Proof.
  apply (erase_to_end_writes_past_last_page 3 (demo_device []) 8 8).
  - apply demo_ready.
  - reflexivity.
  - unfold in_bounds. cbn. lia.
  - reflexivity.
  - constructor.
  - vm_compute. lia.
Defined.

(** ** Reads and programs on a truthful cache *)

(** X7 -- A read returns the bytes of the chip.  On a ready device with a
    truthful cache and a chip that answers no error, a [read] of a range
    inside the device returns [Ok], fills the first [sz] bytes of the
    caller's buffer with the logical bytes at [addr], [addr + 1], ... as the
    chip holds them, leaves the rest of the buffer and the flash as they
    were, and leaves the cache truthful. *)
Theorem read_returns_chip_bytes fuel d dest addr sz :
  ready d -> cache_valid d -> fault_free (at45 d) -> in_bounds d addr sz ->
  sz <= Z.of_nat (length dest) -> (Z.to_nat sz <= fuel)%nat ->
  exists d' dest',
    read fuel d dest addr sz = Some (BD_ERROR_OK, d', dest') /\
    (forall i, 0 <= i < sz -> nth (Z.to_nat i) dest' x00 = byte_at d (addr + i)) /\
    skipn (Z.to_nat sz) dest' = skipn (Z.to_nat sz) dest /\
    length dest' = length dest /\
    AT45.flash (at45 d') = AT45.flash (at45 d) /\
    cache_valid d'.
Proof.
  intros Hr Hcv F Hb Hdest Hfuel.
  pose proof Hr as (Hg & (pb & Hpb & Lpb) & Hpages). pose proof Hg as [Hps _].
  destruct (in_bounds_size d addr sz Hg Hb) as [Hsz _].
  destruct (read_returns fuel d dest addr sz Hps ltac:(rewrite Hsz; exact Hfuel))
    as (r & d' & dest' & E & H1).
  destruct (H1 F ltac:(congruence)) as [-> _].
  destruct (read_effect fuel d pb dest addr sz d' dest' Hr Hpb Hb Hdest E)
    as (_ & _ & _ & Fl & Ld & _ & _ & Hread).
  exists d', dest'. split; [exact E|].
  split; [|split; [|split; [exact Ld|split; [exact Fl|]]]].
  - intros i Hi. rewrite (Hread i) by lia.
    destruct (Z.ltb_spec i sz); [|lia]. unfold byte_at.
    destruct (((addr + i) / pagesize d =? last_page d) &&
              ((addr + i) / pagesize d =? addr / pagesize d)) eqn:C; [|reflexivity].
    apply andb_true_iff in C. destruct C as [C1 C2].
    apply Z.eqb_eq in C1. apply Z.eqb_eq in C2.
    pose proof (first_page_below_sentinel d addr sz Hg Hb) as Hp.
    assert (Hlp : last_page d <> NO_PAGE) by lia.
    specialize (Hcv Hlp). rewrite Hpb in Hcv. injection Hcv as ->.
    rewrite C1. reflexivity.
  - destruct Hb as (Ha & Hs & HbT).
    apply nth_ext with (d := x00) (d' := x00).
    + rewrite !length_skipn. lia.
    + intros n Hn. rewrite !nth_skipn.
      rewrite <- (Nat2Z.id (Z.to_nat sz + n)). rewrite Hread by lia.
      destruct (Z.ltb_spec (Z.of_nat (Z.to_nat sz + n)) sz); [lia | reflexivity].
  - eapply read_keeps_cache_valid; eauto.
Qed.

Lemma read_returns_chip_bytes_witness :
  exists d' dest',
    read 6 (demo_device []) [x00; x00; x00; x00; x00; x00; x00] 3 6
      = Some (BD_ERROR_OK, d', dest') /\
    (forall i, 0 <= i < 6 ->
       nth (Z.to_nat i) dest' x00 = byte_at (demo_device []) (3 + i)) /\
    skipn (Z.to_nat 6) dest' = skipn (Z.to_nat 6) [x00; x00; x00; x00; x00; x00; x00] /\
    length dest' = length [x00; x00; x00; x00; x00; x00; x00] /\
    AT45.flash (at45 d') = AT45.flash (at45 (demo_device [])) /\
    cache_valid d'.
Proof.
  apply (read_returns_chip_bytes 6 (demo_device [])).
  - apply demo_ready.
  - intros H. exfalso. apply H. reflexivity.
  - constructor.
  - unfold in_bounds. cbn. lia.
  - cbn. lia.
  - vm_compute. lia.
Defined.

(** X8 -- A program changes its range and nothing else.  On a ready device
    with a truthful cache and a chip that answers no error, a [program] of a
    range inside the device returns [Ok]; afterwards every logical byte of
    the range holds the source byte, every other logical byte of the device
    holds what it held, and the cache is truthful. *)
Theorem program_writes_range_only fuel d src addr sz :
  ready d -> cache_valid d -> fault_free (at45 d) -> in_bounds d addr sz ->
  sz <= Z.of_nat (length src) -> (Z.to_nat sz <= fuel)%nat ->
  exists d',
    program fuel d src addr sz = Some (BD_ERROR_OK, d') /\
    (forall x, byte_at d' x =
               if (addr <=? x) && (x <? addr + sz)
               then nth (Z.to_nat (x - addr)) src x00 else byte_at d x) /\
    cache_valid d'.
Proof.
  intros Hr Hcv F Hb Hsrc Hfuel.
  pose proof Hr as (Hg & (pb & Hpb & Lpb) & Hpages). pose proof Hg as [Hps _].
  destruct (in_bounds_size d addr sz Hg Hb) as [Hsz _].
  destruct (program_returns fuel d src addr sz Hps ltac:(rewrite Hsz; exact Hfuel))
    as (r & d' & E & H1).
  destruct (H1 F ltac:(congruence)) as [-> _].
  exists d'. split; [exact E|]. split.
  - eapply program_bytes; eauto.
  - eapply program_keeps_cache_valid; eauto.
Qed.

Lemma program_writes_range_only_witness :
  exists d',
    program 6 (demo_device []) [xaa; xbb; xcc; xdd; xee; xf0] 3 6
      = Some (BD_ERROR_OK, d') /\
    (forall x, byte_at d' x =
               if (3 <=? x) && (x <? 3 + 6)
               then nth (Z.to_nat (x - 3)) [xaa; xbb; xcc; xdd; xee; xf0] x00
               else byte_at (demo_device []) x) /\
    cache_valid d'.
Proof.
  apply (program_writes_range_only 6 (demo_device [])).
  - apply demo_ready.
  - intros H. exfalso. apply H. reflexivity.
  - constructor.
  - unfold in_bounds. cbn. lia.
  - cbn. lia.
  - vm_compute. lia.
Defined.

(** X9 -- Programming twice is programming once.  On a ready device, with a
    cache truthful or not, and a chip that answers no error, repeating a
    [program] that has returned [Ok] returns [Ok] again and leaves every
    logical byte of the device as the first call left it. *)
Theorem program_twice fuel d src addr sz :
  ready d -> fault_free (at45 d) -> in_bounds d addr sz ->
  sz <= Z.of_nat (length src) -> (Z.to_nat sz <= fuel)%nat ->
  exists d1 d2,
    program fuel d src addr sz = Some (BD_ERROR_OK, d1) /\
    program fuel d1 src addr sz = Some (BD_ERROR_OK, d2) /\
    forall x, byte_at d2 x = byte_at d1 x.
Proof.
  intros Hr F Hb Hsrc Hfuel.
  pose proof Hr as (Hg & (pb & Hpb & Lpb) & Hpages). pose proof Hg as [Hps _].
  destruct (in_bounds_size d addr sz Hg Hb) as [Hsz _].
  destruct (program_returns fuel d src addr sz Hps ltac:(rewrite Hsz; exact Hfuel))
    as (r1 & d1 & E1 & H1).
  destruct (H1 F ltac:(congruence)) as [-> F1].
  destruct (program_effect fuel d pb src addr sz d1 Hr Hpb Hb Hsrc E1)
    as (Hr1 & Eps & Ets & Hlast & Hzero & Hbytes).
  pose proof Hr1 as (Hg1 & (pb1 & Hpb1 & _) & _).
  assert (Hb1 : in_bounds d1 addr sz) by (unfold in_bounds in *; rewrite Ets; exact Hb).
  destruct (program_returns fuel d1 src addr sz ltac:(rewrite Eps; exact Hps)
              ltac:(rewrite Hsz; exact Hfuel)) as (r2 & d2 & E2 & H2).
  destruct (H2 F1 ltac:(congruence)) as [-> _].
  exists d1, d2. split; [exact E1|]. split; [exact E2|].
  destruct (Z.eq_dec sz 0) as [Hz|Hz].
  { destruct (program_effect fuel d1 pb1 src addr sz d2 Hr1 Hpb1 Hb1 Hsrc E2)
      as (_ & _ & _ & _ & Hzero2 & _).
    rewrite (Hzero2 Hz). reflexivity. }
  assert (Hcv1 : cache_valid d1).
  { intros _. destruct Hb as (_ & Hs & _). destruct (Hlast ltac:(lia)) as [_ Hc].
    exact Hc. }
  intros x.
  rewrite (program_bytes fuel d1 src addr sz d2 Hr1 Hcv1 Hb1 Hsrc E2 x).
  destruct ((addr <=? x) && (x <? addr + sz)) eqn:C; [|reflexivity].
  apply andb_true_iff in C. destruct C as [C1 C2].
  apply Z.leb_le in C1. apply Z.ltb_lt in C2.
  unfold byte_at. rewrite Eps.
  pose proof (Z.mod_pos_bound x (pagesize d) ltac:(lia)) as Hm.
  pose proof (Z.div_mod x (pagesize d) ltac:(lia)) as Hdm.
  rewrite (Hbytes (x / pagesize d) (x mod pagesize d) Hm).
  replace (x / pagesize d * pagesize d + x mod pagesize d) with x by lia.
  destruct (Z.leb_spec addr x); [|lia]. destruct (Z.ltb_spec x (addr + sz)); [|lia].
  reflexivity.
Qed.

Lemma program_twice_witness :
  exists d1 d2,
    program 6 (mkDevice (demo_chip []) 4 16 (Some [xff; xff; xff; xff]) 0) [xaa; xbb; xcc; xdd; xee; xf0] 3 6
      = Some (BD_ERROR_OK, d1) /\
    program 6 d1 [xaa; xbb; xcc; xdd; xee; xf0] 3 6 = Some (BD_ERROR_OK, d2) /\
    forall x, byte_at d2 x = byte_at d1 x.
Proof.
  apply (program_twice 6 (mkDevice (demo_chip []) 4 16 (Some [xff; xff; xff; xff]) 0)).
  - split; [unfold geometry_ok, NO_PAGE; cbn; lia|].
    split; [exists [xff; xff; xff; xff]; split; reflexivity|].
    intros p. cbn. unfold demo_flash.
    destruct (p =? 0); [reflexivity|]. destruct (p =? 1); [reflexivity|].
    destruct (p =? 2); reflexivity.
  - constructor.
  - unfold in_bounds. cbn. lia.
  - cbn. lia.
  - vm_compute. lia.
Defined.

(** ** Sequences of reads and programs *)

Lemma transfer_ok fuel d q :
  ready d -> cache_valid d -> fault_free (at45 d) -> fits d q ->
  (turns d q <= fuel)%nat ->
  exists d' out,
    call fuel d q = Some (BD_ERROR_OK, d', out) /\
    ready d' /\ cache_valid d' /\ fault_free (at45 d') /\
    totalsize d' = totalsize d.
Proof.
  intros Hr Hcv F (Hq & Hb & Hbuf) Hfuel.
  pose proof Hr as (Hg & (pb & Hpb & _) & _). pose proof Hg as [Hps _].
  destruct q as [dest addr sz | src addr sz | addr sz]; cbn in *; [| |discriminate].
  - destruct (read_returns fuel d dest addr sz Hps Hfuel) as (r & d' & dest' & E & H1).
    destruct (H1 F ltac:(congruence)) as [-> F'].
    destruct (read_effect fuel d pb dest addr sz d' dest' Hr Hpb Hb Hbuf E)
      as (Hr' & _ & Ets & _).
    exists d', dest'. split; [exact E|]. split; [exact Hr'|].
    split; [exact (read_keeps_cache_valid fuel d dest addr sz d' dest' Hr Hcv Hb Hbuf E)|].
    split; [exact F' | exact Ets].
  - destruct (program_returns fuel d src addr sz Hps Hfuel) as (r & d' & E & H1).
    destruct (H1 F ltac:(congruence)) as [-> F'].
    destruct (program_effect fuel d pb src addr sz d' Hr Hpb Hb Hbuf E)
      as (Hr' & _ & Ets & _).
    exists d', []. rewrite E. split; [reflexivity|]. split; [exact Hr'|].
    split; [exact (program_keeps_cache_valid fuel d src addr sz d' Hr Hcv Hb Hbuf E)|].
    split; [exact F' | exact Ets].
Qed.

Lemma fits_same_size d d' q : totalsize d' = totalsize d -> fits d q -> fits d' q.
Proof. unfold fits, in_bounds. intros ->. auto. Qed.

Lemma turns_of_transfer d d' q : transfer q = true -> turns d' q = turns d q.
Proof. destruct q; cbn; (reflexivity || discriminate). Qed.

(** X10 -- Reads and programs keep the cache truthful.  On a ready device
    with a truthful cache and a chip that answers no error, every sequence of
    reads and programs of ranges inside the device, each with a buffer as
    long as its range, returns [Ok] call after call and ends on a ready
    device whose cache is truthful. *)
Theorem transfers_keep_cache_truthful fuel qs : forall d,
  ready d -> cache_valid d -> fault_free (at45 d) ->
  Forall (fits d) qs -> Forall (fun q => (turns d q <= fuel)%nat) qs ->
  exists rs d',
    calls fuel d qs = Some (rs, d') /\
    length rs = length qs /\ Forall (fun r => r = BD_ERROR_OK) rs /\
    ready d' /\ cache_valid d' /\ fault_free (at45 d').
Proof.
  induction qs as [|q qs IH]; intros d Hr Hcv F Hfits Hturns.
  - exists [], d. cbn. split; [reflexivity|]. split; [reflexivity|].
    split; [constructor|]. split; [exact Hr|]. split; [exact Hcv | exact F].
  - inversion Hfits as [|? ? Hq Hqs]; subst.
    inversion Hturns as [|? ? Tq Tqs]; subst.
    destruct (transfer_ok fuel d q Hr Hcv F Hq Tq)
      as (d1 & out & C & Hr1 & Hcv1 & F1 & Ets).
    destruct (IH d1 Hr1 Hcv1 F1) as (rs & d' & Cs & Hlen & Hok & Hr' & Hcv' & F').
    + eapply Forall_impl; [|exact Hqs]. intros q0. apply fits_same_size, Ets.
    + rewrite Forall_forall in *. intros q0 Hin.
      rewrite (turns_of_transfer d d1 q0); [auto|]. apply (Hqs q0 Hin).
    + exists (BD_ERROR_OK :: rs), d'. cbn [calls]. rewrite C, Cs.
      split; [reflexivity|]. split; [cbn; now rewrite Hlen|].
      split; [constructor; auto|]. split; [exact Hr'|].
      split; [exact Hcv' | exact F'].
Qed.

Lemma transfers_keep_cache_truthful_witness :
  exists rs d',
    calls 6 (demo_device [])
      [Read [x00; x00; x00] 2 3; Program [xaa; xbb; xcc; xdd; xee; xf0] 3 6;
       Read [x00] 15 1] = Some (rs, d') /\
    length rs = length [Read [x00; x00; x00] 2 3;
                        Program [xaa; xbb; xcc; xdd; xee; xf0] 3 6; Read [x00] 15 1] /\
    Forall (fun r => r = BD_ERROR_OK) rs /\
    ready d' /\ cache_valid d' /\ fault_free (at45 d').
Proof.
  apply (transfers_keep_cache_truthful 6
           [Read [x00; x00; x00] 2 3; Program [xaa; xbb; xcc; xdd; xee; xf0] 3 6;
            Read [x00] 15 1] (demo_device [])).
  - apply demo_ready.
  - intros H. exfalso. apply H. reflexivity.
  - constructor.
  - repeat constructor; cbn; lia.
  - repeat constructor; vm_compute; lia.
Defined.

(** ** Erase and the cache *)

Lemma erase_ok fuel d addr sz :
  ready d -> fault_free (at45 d) -> in_bounds d addr sz ->
  (turns d (Erase addr sz) <= fuel)%nat ->
  exists d',
    erase fuel d addr sz = Some (BD_ERROR_OK, d') /\
    ready d' /\ fault_free (at45 d') /\
    pagesize d' = pagesize d /\ totalsize d' = totalsize d /\
    pagebuffer d' = Some (repeat xff (Z.to_nat (pagesize d))) /\
    (forall p, AT45.flash (at45 d') p =
               if (addr / pagesize d <=? p) && (p <=? (addr + sz) / pagesize d)
               then repeat xff (Z.to_nat (pagesize d)) else AT45.flash (at45 d) p) /\
    last_page d' =
      if (last_page d >=? addr / pagesize d) && (last_page d <=? (addr + sz) / pagesize d)
      then NO_PAGE else last_page d.
Proof.
  intros (Hg & (pb & Hpb & Lpb) & Hpages) F Hb Hfuel.
  destruct (erase_runs fuel d pb addr sz Hg Hb Hpb Hfuel)
    as (r & d' & new & E & _ & _ & Eps & Ets & Hpb' & _ & H0).
  destruct (erase_fault_free fuel d addr sz r d' F ltac:(congruence) E) as [-> F'].
  rewrite (memset_full pb xff (pagesize d) Lpb) in *.
  destruct (H0 eq_refl) as (_ & Hf & Hl).
  exists d'. split; [exact E|].
  assert (Lblank : Z.of_nat (length (repeat xff (Z.to_nat (pagesize d)))) = pagesize d).
  { rewrite repeat_length. destruct Hg as [Hps _]. lia. }
  split; [|auto 10].
  split; [|split].
  - unfold geometry_ok in *. rewrite Eps, Ets. exact Hg.
  - eexists. split; [exact Hpb'|]. now rewrite Eps.
  - intros p. rewrite Hf, Eps.
    destruct ((addr / pagesize d <=? p) && (p <=? (addr + sz) / pagesize d)); auto.
Qed.



(** X12 -- Erased pages read back blank.  On a ready device with a chip
    that answers no error, whatever the cache holds, an [erase] of a range
    inside the device followed by a [read] of a range that lies on the pages
    the erase has written both return [Ok], and the read fills its [n] bytes
    with [0xFF]. *)
Theorem erase_then_read_blank fuel1 fuel2 d addr sz dest a n :
  ready d -> fault_free (at45 d) -> in_bounds d addr sz -> in_bounds d a n ->
  addr / pagesize d <= a / pagesize d ->
  (a + n - 1) / pagesize d <= (addr + sz) / pagesize d ->
  n <= Z.of_nat (length dest) ->
  (turns d (Erase addr sz) <= fuel1)%nat -> (Z.to_nat n <= fuel2)%nat ->
  exists d1 d2 dest',
    erase fuel1 d addr sz = Some (BD_ERROR_OK, d1) /\
    read fuel2 d1 dest a n = Some (BD_ERROR_OK, d2, dest') /\
    forall i, 0 <= i < n -> nth (Z.to_nat i) dest' x00 = xff.
Proof.
  intros Hr F Hb Hba Hlo Hhi Hdest Hf1 Hf2.
  destruct (erase_ok fuel1 d addr sz Hr F Hb Hf1)
    as (d1 & E1 & Hr1 & F1 & Eps & Ets & Hpb1 & Hfl & _).
  pose proof Hr1 as (Hg1 & _ & _). pose proof Hg1 as [Hps1 _].
  assert (Hba1 : in_bounds d1 a n) by (unfold in_bounds in *; rewrite Ets; exact Hba).
  destruct (in_bounds_size d1 a n Hg1 Hba1) as [Hsz _].
  destruct (read_returns fuel2 d1 dest a n Hps1 ltac:(rewrite Hsz; exact Hf2))
    as (r & d2 & dest' & E2 & H2).
  destruct (H2 F1 ltac:(congruence)) as [-> _].
  destruct (read_effect fuel2 d1 _ dest a n d2 dest' Hr1 Hpb1 Hba1 Hdest E2)
    as (_ & _ & _ & _ & _ & _ & _ & Hread).
  exists d1, d2, dest'. split; [exact E1|]. split; [exact E2|].
  intros i Hi. rewrite (Hread i) by lia.
  destruct (Z.ltb_spec i n); [|lia]. rewrite Eps in *.
  destruct Hba as (Ha & Hn & _).
  pose proof (Z.mod_pos_bound (a + i) (pagesize d) ltac:(lia)) as Hm.
  assert (Hq1 : a / pagesize d <= (a + i) / pagesize d) by (apply Z.div_le_mono; lia).
  assert (Hq2 : (a + i) / pagesize d <= (a + n - 1) / pagesize d)
    by (apply Z.div_le_mono; lia).
  rewrite Hfl.
  destruct (Z.leb_spec (addr / pagesize d) ((a + i) / pagesize d)); [|lia].
  destruct (Z.leb_spec ((a + i) / pagesize d) ((addr + sz) / pagesize d)); [|lia].
  cbn [andb].
  destruct (_ && _); apply nth_repeat_lt; lia.
Qed.

Lemma erase_then_read_blank_witness :
  exists d1 d2 dest',
    erase 3 (mkDevice (demo_chip []) 4 16 (Some [x01; x02; x03; x04]) 1) 4 5 = Some (BD_ERROR_OK, d1) /\
    read 6 d1 [x00; x00; x00; x00; x00; x00] 5 6 = Some (BD_ERROR_OK, d2, dest') /\
    forall i, 0 <= i < 6 -> nth (Z.to_nat i) dest' x00 = xff.
Proof.
  apply (erase_then_read_blank 3 6 (mkDevice (demo_chip []) 4 16 (Some [x01; x02; x03; x04]) 1) 4 5).
  - split; [unfold geometry_ok, NO_PAGE; cbn; lia|].
    split; [exists [x01; x02; x03; x04]; split; reflexivity|].
    intros p. cbn. unfold demo_flash.
    destruct (p =? 0); [reflexivity|]. destruct (p =? 1); [reflexivity|].
    destruct (p =? 2); reflexivity.
  - constructor.
  - unfold in_bounds. cbn. lia.
  - unfold in_bounds. cbn. lia.
  - cbn. lia.
  - cbn. lia.
  - cbn. lia.
  - vm_compute. lia.
  - vm_compute. lia.
Defined.

(** ** A program that fails on the cached page *)

(** X14 -- A failed write is still read back.  Take a [program] whose range
    lies within the cached page and whose [write_page] the chip answers with
    an error.  The call returns that error, the flash and [last_page] are as
    before, but the page buffer keeps the bytes that were to be written: a
    [read] of the same range then returns [Ok] with those bytes, without
    asking the chip, which does not hold them. *)
Theorem failed_program_is_read_back fuel d pb src dest addr sz r rest :
  ready d -> pagebuffer d = Some pb -> in_bounds d addr sz -> 0 < sz ->
  addr / pagesize d = last_page d -> (addr + sz - 1) / pagesize d = last_page d ->
  sz <= Z.of_nat (length src) -> sz <= Z.of_nat (length dest) ->
  AT45.faults (at45 d) = r :: rest -> r <> 0 -> (1 <= fuel)%nat ->
  exists d1 dest',
    program fuel d src addr sz = Some (r, d1) /\
    AT45.flash (at45 d1) = AT45.flash (at45 d) /\
    last_page d1 = last_page d /\
    read fuel d1 dest addr sz = Some (BD_ERROR_OK, d1, dest') /\
    firstn (Z.to_nat sz) dest' = firstn (Z.to_nat sz) src.
Proof.
  intros (Hg & (pb0 & Hpb0 & Lpb) & _) Hpb Hb Hs P1 P2 Hsrc Hdest Hfaults Hr Hfuel.
  rewrite Hpb in Hpb0. injection Hpb0 as <-.
  destruct (in_bounds_size d addr sz Hg Hb) as [Hsz HT].
  pose proof Hg as [Hps _]. pose proof Hb as (Ha & _ & _).
  destruct (chunk_within (pagesize d) addr sz Hps Ha Hs HT ltac:(congruence))
    as (_ & _ & _ & Ho & Hfit).
  set (pb2 := memcpy pb (addr mod pagesize d) src sz).
  set (chip1 := AT45.mk (AT45.pagesize (at45 d)) (AT45.pages (at45 d))
                  (AT45.flash (at45 d)) rest
                  (AT45.journal (at45 d) ++ [(AT45.WritePage (last_page d) pb2, r)])).
  set (d1 := mkDevice chip1 (pagesize d) (totalsize d) (Some pb2) (last_page d)).
  assert (E1 : program fuel d src addr sz = Some (r, d1)).
  { unfold program. rewrite Hpb, Hsz. destruct fuel as [|fuel]; [lia|].
    rewrite <- P1. rewrite program_loop_cached by (try lia; congruence).
    cbv zeta. unfold AT45.write_page, AT45.answer. rewrite Hfaults.
    destruct (Z.eqb_spec r 0); [contradiction|]. rewrite P1. reflexivity. }
  exists d1. eexists. split; [exact E1|]. split; [reflexivity|]. split; [reflexivity|].
  split.
  - apply (read_within_cached_page fuel d1 pb2 dest addr sz); auto.
  - change (pagesize d1) with (pagesize d).
    assert (Lpb2 : Z.of_nat (length pb2) = pagesize d).
    { subst pb2. rewrite length_memcpy; lia. }
    apply nth_ext with (d := x00) (d' := x00).
    + rewrite !length_firstn, length_memcpy; try lia. rewrite length_skipn. lia.
    + intros k Hk. rewrite length_firstn in Hk. rewrite !nth_firstn.
      destruct (Nat.ltb_spec k (Z.to_nat sz)); [|reflexivity].
      rewrite <- (Nat2Z.id k). rewrite nth_memcpy; try lia.
      2:{ rewrite length_skipn. lia. }
      destruct (Z.leb_spec 0 (Z.of_nat k)); [|lia].
      destruct (Z.ltb_spec (Z.of_nat k) (0 + sz)); [|lia]. cbn [andb].
      rewrite nth_skipn.
      replace (Z.to_nat (addr mod pagesize d) + Z.to_nat (Z.of_nat k - 0))%nat
        with (Z.to_nat (addr mod pagesize d + Z.of_nat k)) by lia.
      subst pb2. rewrite nth_memcpy by lia.
      destruct (Z.leb_spec (addr mod pagesize d) (addr mod pagesize d + Z.of_nat k));
        [|lia].
      destruct (Z.ltb_spec (addr mod pagesize d + Z.of_nat k) (addr mod pagesize d + sz));
        [|lia].
      cbn [andb]. f_equal. lia.
Qed.

Lemma failed_program_is_read_back_witness :
  exists d1 dest',
    program 1 cached_device [xaa; xbb] 5 2 = Some (7, d1) /\
    AT45.flash (at45 d1) = AT45.flash (at45 cached_device) /\
    last_page d1 = last_page cached_device /\
    read 1 d1 [x00; x00] 5 2 = Some (BD_ERROR_OK, d1, dest') /\
    firstn (Z.to_nat 2) dest' = firstn (Z.to_nat 2) [xaa; xbb].
Proof.
  apply (failed_program_is_read_back 1 cached_device [x01; x02; x03; x04]
           [xaa; xbb] [x00; x00] 5 2 7 []).
  - split; [unfold geometry_ok, NO_PAGE; cbn; lia|].
    split; [exists [x01; x02; x03; x04]; split; reflexivity|].
    intros p. cbn. unfold demo_flash.
    destruct (p =? 0); [reflexivity|]. destruct (p =? 1); [reflexivity|].
    destruct (p =? 2); reflexivity.
  - reflexivity.
  - unfold in_bounds. cbn. lia.
  - lia.
  - reflexivity.
  - reflexivity.
  - cbn. lia.
  - cbn. lia.
  - reflexivity.
  - lia.
  - lia.
Defined.

(** ** An erase that fails, a read out of bounds *)

(** X15 -- A failed erase keeps [last_page].  When the chip answers an error
    to the first [write_page] of an [erase], the call returns that error
    with the flash unchanged, the page buffer filled with [0xFF] and
    [last_page] as it was, also when the cached page is one the erase was to
    write: if that page is not blank on the chip, the cache no longer tells
    the truth. *)
Theorem failed_erase_keeps_last_page fuel d addr sz r rest :
  ready d -> in_bounds d addr sz ->
  AT45.faults (at45 d) = r :: rest -> r <> 0 -> (1 <= fuel)%nat ->
  exists d1,
    erase fuel d addr sz = Some (r, d1) /\
    AT45.flash (at45 d1) = AT45.flash (at45 d) /\
    pagebuffer d1 = Some (repeat xff (Z.to_nat (pagesize d))) /\
    last_page d1 = last_page d /\
    (last_page d <> NO_PAGE ->
     AT45.flash (at45 d) (last_page d) <> repeat xff (Z.to_nat (pagesize d)) ->
     ~ cache_valid d1).
Proof.
  intros (Hg & (pb & Hpb & Lpb) & _) Hb Hfaults Hr Hfuel.
  destruct (erase_pages d addr sz Hg Hb) as (E1 & E2 & E3 & E4).
  assert (E : exists chip1,
    erase fuel d addr sz =
      Some (r, mkDevice chip1 (pagesize d) (totalsize d)
                 (Some (repeat xff (Z.to_nat (pagesize d)))) (last_page d)) /\
    AT45.flash chip1 = AT45.flash (at45 d)).
  { unfold erase. rewrite Hpb. cbv zeta. rewrite E1, E2.
    rewrite (size_t_small (addr / pagesize d)) by lia.
    rewrite (memset_full pb xff (pagesize d) Lpb).
    destruct fuel as [|fuel]; [lia|]. rewrite erase_loop_step by lia.
    unfold AT45.write_page, AT45.answer. rewrite Hfaults. cbv beta iota zeta.
    assert (Hrb : (r =? 0) = false) by (apply Z.eqb_neq; exact Hr).
    rewrite Hrb. cbv beta iota. rewrite Hrb. cbv beta iota delta [negb].
    eexists. split; reflexivity. }
  destruct E as (chip1 & E & Fl).
  eexists. split; [exact E|]. cbn. split; [exact Fl|].
  split; [reflexivity|]. split; [reflexivity|].
  intros Hlp Hnb Hcv. specialize (Hcv Hlp). cbn in Hcv.
  injection Hcv as Hcv. rewrite Fl in Hcv. congruence.
Qed.

Lemma failed_erase_keeps_last_page_witness :
  exists d1,
    erase 1 cached_device 4 4 = Some (7, d1) /\
    AT45.flash (at45 d1) = AT45.flash (at45 cached_device) /\
    pagebuffer d1 = Some (repeat xff (Z.to_nat (pagesize cached_device))) /\
    last_page d1 = last_page cached_device /\
    (last_page cached_device <> NO_PAGE ->
     AT45.flash (at45 cached_device) (last_page cached_device)
       <> repeat xff (Z.to_nat (pagesize cached_device)) ->
     ~ cache_valid d1).
Proof.
  apply (failed_erase_keeps_last_page 1 cached_device 4 4 7 []).
  - split; [unfold geometry_ok, NO_PAGE; cbn; lia|].
    split; [exists [x01; x02; x03; x04]; split; reflexivity|].
    intros p. cbn. unfold demo_flash.
    destruct (p =? 0); [reflexivity|]. destruct (p =? 1); [reflexivity|].
    destruct (p =? 2); reflexivity.
  - unfold in_bounds. cbn. lia.
  - reflexivity.
  - lia.
  - lia.
Defined.

(** X16 -- No bounds check.  A [read] does not compare its range with the
    size of the device.  On an initialised device whose size is its page
    size times the number of pages of the chip, a read of at least one byte
    that starts at or past [size], on a page that is not the cached one,
    returns after issuing as its first access a [read_page] for the page
    index [addr / pagesize], which is at or past [pages]: the request reaches
    the chip with a page the chip does not have, and when the chip answers it
    with an error, that error is what the call returns. *)
Theorem read_past_the_end_reaches_chip fuel d pb dest addr sz :
  0 < pagesize d < 2 ^ 32 -> pagebuffer d = Some pb ->
  0 <= AT45.pages (at45 d) ->
  size d = get_erase_size d * AT45.pages (at45 d) ->
  size d <= addr -> 0 < sz -> addr + sz < NO_PAGE ->
  last_page d <> addr / pagesize d -> (Z.to_nat sz <= fuel)%nat ->
  exists r d' dest' a rest,
    read fuel d dest addr sz = Some (r, d', dest') /\
    issued (at45 d) (at45 d') ((AT45.ReadPage (addr / pagesize d), a) :: rest) /\
    AT45.pages (at45 d) <= addr / pagesize d /\
    (a <> 0 -> r = a /\ rest = []).
Proof.
  unfold size, get_erase_size.
  intros Hps Hpb Hpages Hsize Hpast Hs HT Hlast Hfuel.
  assert (Ha : 0 <= addr) by nia.
  assert (Hsz : size_t sz = sz) by (apply size_t_small; unfold NO_PAGE in HT; lia).
  unfold read. rewrite Hpb, Hsz.
  destruct (read_loop_runs fuel (pagesize d) (at45 d) pb (last_page d) dest 0 addr sz
              Hps ltac:(unfold NO_PAGE in HT; lia) Hfuel)
    as (r & chip' & pb' & last' & dest' & new & E & I & Hh & _).
  rewrite E.
  apply read_loop_journal in E; try lia.
  destruct E as (new' & I' & _ & _ & _ & Hfirst & _).
  pose proof (issued_inj _ _ _ _ I I'). subst new'.
  destruct (Hfirst Hs Hlast) as (a & rest & ->).
  eexists r, _, dest', a, rest. split; [reflexivity|]. cbn.
  split; [exact I|]. split.
  - apply Z.div_le_lower_bound; lia.
  - intros Hne. cbn in Hh. destruct (Z.eqb_spec a 0); [contradiction|].
    destruct Hh as [-> ->]. auto.
Qed.

Lemma read_past_the_end_reaches_chip_witness :
  exists r d' dest' a rest,
    read 2 (demo_device [5]) [x00; x00] 20 2 = Some (r, d', dest') /\
    issued (at45 (demo_device [5])) (at45 d')
      ((AT45.ReadPage (20 / pagesize (demo_device [5])), a) :: rest) /\
    AT45.pages (at45 (demo_device [5])) <= 20 / pagesize (demo_device [5]) /\
    (a <> 0 -> r = a /\ rest = []).
Proof.
  apply (read_past_the_end_reaches_chip 2 (demo_device [5]) [x00; x00; x00; x00]).
  - cbn. lia.
  - reflexivity.
  - cbn. lia.
  - reflexivity.
  - cbn. lia.
  - lia.
  - unfold NO_PAGE. lia.
  - cbn. lia.
  - vm_compute. lia.
Defined.
